(** * si8900 UART stack: packet codec, auto-baud handshake, bit utility

    Shallow embedding of [si8900.h] and [si8900.c].

    Integers are modelled as [Z] with the wrap-around of the C type written
    out ([u8], [u16]).  The only target the header implements is the
    MSP430 ([MSP_]), where [int] is 16 bits wide, so [uint16_t] arithmetic
    is done on 16-bit unsigned values.  Operations the C standard leaves
    undefined (a division by zero, a shift by at least the width of the
    operand) are results of their own, see [outcome]. *)

From Stdlib Require Import ZArith List Bool Lia.
Import ListNotations.

Local Open Scope Z_scope.

(** ** Fixed-width integers *)

Module CInt.

(** Conversion to [uint8_t] and to [uint16_t]. *)
Definition u8 (x : Z) : Z := x mod 256.
Definition u16 (x : Z) : Z := x mod 65536.

(** What the standard leaves undefined, and the code can reach. *)
Inductive undefined : Set :=
| DivisionByZero
| ShiftCountTooLarge
| IndeterminateValue.

(** A call either returns a value or runs into undefined behaviour. *)
Inductive outcome (A : Type) : Type :=
| Returns (a : A)
| Undefined (why : undefined).

Arguments Returns {A} a.
Arguments Undefined {A} why.

End CInt.

Export CInt.

(** ** The header: command fields, reserved bytes, packet macros *)

Module Header.

(** [typedef uint8_t si8900_cfg;] *)
Definition si8900_cfg : Set := Z.

Definition PGA_0 : Z := u8 0x00.
Definition PGA_1 : Z := u8 0x01.
Definition MODE_0 : Z := u8 0x00.
Definition MODE_1 : Z := u8 0x02.
Definition REF_0 : Z := u8 0x00.
Definition REF_1 : Z := u8 0x08.
Definition INCH_0 : Z := u8 0xC0.
Definition INCH_1 : Z := u8 0xD0.
Definition INCH_2 : Z := u8 0xE0.

(** The four base fields of a command byte, one setting each. *)
Inductive pga_field : Set := Gain_half | Gain_one.
Inductive mode_field : Set := Single_read | Stream_read.
Inductive ref_field : Set := Ref_vdd | Ref_external.
Inductive inch_field : Set := Channel_0 | Channel_1 | Channel_2.

Definition pga_bits (p : pga_field) : Z :=
  match p with Gain_half => PGA_0 | Gain_one => PGA_1 end.
Definition mode_bits (m : mode_field) : Z :=
  match m with Single_read => MODE_0 | Stream_read => MODE_1 end.
Definition ref_bits (r : ref_field) : Z :=
  match r with Ref_vdd => REF_0 | Ref_external => REF_1 end.
Definition inch_bits (c : inch_field) : Z :=
  match c with Channel_0 => INCH_0 | Channel_1 => INCH_1 | Channel_2 => INCH_2 end.

(** The header's pattern for a general purpose command byte:
    [( (uint8_t)(<PGA_x> | <MODE_x> | <REF_x> | <INCH_x>) )]. *)
Definition cmd_byte_of (p : pga_field) (m : mode_field) (r : ref_field)
    (c : inch_field) : si8900_cfg :=
  u8 (Z.lor (Z.lor (Z.lor (pga_bits p) (mode_bits m)) (ref_bits r)) (inch_bits c)).

Definition GP_SINGLE_READ_0 : Z := u8 (Z.lor (Z.lor (Z.lor INCH_0 REF_0) MODE_1) PGA_0).
Definition GP_SINGLE_READ_1 : Z := u8 (Z.lor (Z.lor (Z.lor INCH_1 REF_0) MODE_1) PGA_0).
Definition GP_SINGLE_READ_2 : Z := u8 (Z.lor (Z.lor (Z.lor INCH_2 REF_0) MODE_1) PGA_0).

Definition CAL_BYTE : Z := u8 0xAA.
Definition CONFIRM : Z := u8 0x55.
Definition FAILED : Z := u8 0xFF.
Definition HAND_SHAKED : Z := u8 0x88.

(** [#define PACKET_JOIN(b1,b2) ((uint16_t)(((uint16_t)b1) << 7 | b2))] *)
Definition PACKET_JOIN (b1 b2 : Z) : Z :=
  u16 (Z.lor (Z.shiftl (u16 b1) 7) b2).

(** [#define GET_INCH(packet) ((uint8_t)((packet & 0x30) >> 4))] *)
Definition GET_INCH (packet : Z) : Z :=
  u8 (Z.shiftr (Z.land packet 0x30) 4).

(** [#define GET_READING(packet) ((uint16_t)((packet & 0x0FFE) >> 1))] *)
Definition GET_READING (packet : Z) : Z :=
  u16 (Z.shiftr (Z.land packet 0x0FFE) 1).

Record si8900_reading : Set := {
  cmd_byte : si8900_cfg;
  inch : Z;
  reading : Z
}.

End Header.

Export Header.

(** ** [bit_reverse] *)

Module BitReverse.

(** [sizeof(uint16_t)] and [sizeof(uint8_t)], in bytes. *)
Definition sizeof_uint16_t : Z := 2.
Definition sizeof_uint8_t : Z := 1.

(** The [for] loop, entered with [num <> 0] (its bits are [bits]) and
    run until [num >>= 1] leaves zero.  Shifting a positive number right
    by one drops its lowest binary digit ([shiftr_1_digits]), so the loop
    is a structural recursion on the digits of [num].

    Each round: [reverse <<= 1; reverse |= num & 1; size--;]. *)
Fixpoint bit_reverse_loop (bits : positive) (reverse size : Z) : Z * Z :=
  let num := Z.pos bits in
  let reverse := u16 (Z.shiftl reverse 1) in
  let reverse := u16 (Z.lor reverse (Z.land num 1)) in
  let size := u8 (size - 1) in
  match bits with
  | xH => (reverse, size)
  | xO rest | xI rest => bit_reverse_loop rest reverse size
  end.

(** [for (num >>= 1; num; num >>= 1) { ... }] from the state before the
    initial [num >>= 1]. *)
Definition bit_reverse_for (num reverse size : Z) : Z * Z :=
  match Z.shiftr num 1 with
  | Z.pos bits => bit_reverse_loop bits reverse size
  | _ => (reverse, size)
  end.

(** [uint16_t bit_reverse(uint16_t num)], from the initial value of
    [size] on.  The final [reverse <<= size] shifts a 16-bit operand
    ([size] is a [uint8_t], so it is never negative); a count of 16 or
    more is undefined.  (The counts the code reaches from its own initial
    [size] are 0, 1 and 242 to 255, see [bit_reverse_undefined_from_4]:
    the large ones are undefined for a 32-bit [int] as well.) *)
Definition bit_reverse_from (size : Z) (num : Z) : outcome Z :=
  let reverse := num in
  let '(reverse, size) := bit_reverse_for num reverse size in
  if size <? 16 then Returns (u16 (Z.shiftl reverse size))
  else Undefined ShiftCountTooLarge.

(** [uint8_t size = sizeof(num) * sizeof(uint8_t) - 1;] *)
Definition bit_reverse_size : Z := u8 (sizeof_uint16_t * sizeof_uint8_t - 1).

Definition bit_reverse (num : Z) : outcome Z :=
  bit_reverse_from bit_reverse_size (u16 num).

(** The number of bits of a byte, [CHAR_BIT] of [<limits.h>], which the
    comment on [size] names and the commented-out include mentions. *)
Definition CHAR_BIT : Z := 8.

(** Bit-order reversal across the full 16-bit width, as the function's
    description has it: bit [i] of the result is bit [15 - i] of [x]. *)
Fixpoint reversal (width : nat) (x : Z) : Z :=
  match width with
  | O => 0
  | S w => Z.lor (Z.shiftl (Z.land x 1) (Z.of_nat w)) (reversal w (Z.shiftr x 1))
  end.

Definition reverse_bits_16 (x : Z) : Z := reversal 16 x.

End BitReverse.

Export BitReverse.

(** ** [si8900_get_reading] *)

Module Codec.

(** [*(buffer + k)]: the bytes at [buffer] are given as a list; the three
    offsets the code reads are within every buffer the theorems use. *)
Definition deref (buffer : list Z) (k : nat) : Z := nth k buffer 0.

(** [si8900_reading si8900_get_reading(uint8_t* buffer, uint8_t ref_byte)] *)
Definition si8900_get_reading (buffer : list Z) (ref_byte : Z) : si8900_reading :=
  let new_read_cmd_byte := deref buffer 0 in
  if new_read_cmd_byte =? ref_byte then
    let new_read_inch := GET_INCH (deref buffer 1) in
    let packet := PACKET_JOIN (deref buffer 1) (deref buffer 2) in
    {| cmd_byte := new_read_cmd_byte;
       inch := new_read_inch;
       reading := GET_READING packet |}
  else
    {| cmd_byte := new_read_cmd_byte;
       inch := FAILED;
       reading := u16 FAILED |}.

(** The response packet of the wire format, for the echoed command byte,
    the channel [c] and the 10-bit reading [r] (header, "RECIEVE PACKETS"):
    data byte 1 is [1 0 INCH{2} D9-D6{4}], data byte 2 is [0 D5-D0{6} 0]. *)
Definition response_packet (cmd c r : Z) : list Z :=
  [ cmd;
    Z.lor (Z.lor 0x80 (Z.shiftl c 4)) (Z.shiftr r 6);
    Z.shiftl (Z.land r 0x3F) 1 ].

End Codec.

Export Codec.

(** ** [si8900_get_reading_oversampled] *)

Module Oversampling.

(** The locals of the function; [temp] is [None] until it is assigned. *)
Record locals : Set := {
  entries : Z;
  vals : Z;
  temp : option si8900_reading
}.

(** One round of the loop, on the bytes found at [buffer] in that round:
    [temp = si8900_get_reading(buffer, ref_byte);
     if (temp.reading != FAILED) { vals += temp.reading; entries++; }] *)
Definition oversample_body (buffer : list Z) (ref_byte : Z) (st : locals) : locals :=
  let new_temp := si8900_get_reading buffer ref_byte in
  if negb (reading new_temp =? FAILED) then
    {| entries := u8 (entries st + 1);
       vals := u16 (vals st + reading new_temp);
       temp := Some new_temp |}
  else
    {| entries := entries st;
       vals := vals st;
       temp := Some new_temp |}.

(** [for (i = 0; i < sample_count; i++)], with [rounds] rounds left.
    The function reads the same three bytes at [buffer] in every round
    and never writes them; what it finds there in round [i] is
    [mem i] (the receive side refills the buffer between rounds; a
    buffer nobody refills is a constant [mem]). *)
Fixpoint oversample_for (mem : nat -> list Z) (ref_byte : Z)
    (rounds i : nat) (st : locals) : locals :=
  match rounds with
  | O => st
  | S rounds' =>
      oversample_for mem ref_byte rounds' (S i) (oversample_body (mem i) ref_byte st)
  end.

(** [si8900_reading si8900_get_reading_oversampled(uint8_t* buffer,
    uint8_t ref_byte, uint8_t sample_count)].  [i] counts from 0 up to
    [sample_count <= 255] and does not wrap. *)
Definition si8900_get_reading_oversampled (mem : nat -> list Z) (ref_byte : Z)
    (sample_count : Z) : outcome si8900_reading :=
  let st := {| entries := 0; vals := 0; temp := None |} in
  let st := oversample_for mem ref_byte (Z.to_nat (u8 sample_count)) 0 st in
  if entries st =? 0 then Undefined DivisionByZero
  else
    match temp st with
    | Some t =>
        Returns {| cmd_byte := cmd_byte t;
                   inch := inch t;
                   reading := u16 (Z.quot (vals st) (entries st)) |}
    | None => Undefined IndeterminateValue
    end.

(** The buffer contents of the [n] rounds from round [i] on, and of the
    first [n] rounds. *)
Definition attempts_from (mem : nat -> list Z) (i n : nat) : list (list Z) :=
  map mem (seq i n).

Definition attempts (mem : nat -> list Z) (n : nat) : list (list Z) :=
  attempts_from mem 0 n.

(** The reading value decoded from one buffer content. *)
Definition decoded (ref_byte : Z) (buffer : list Z) : Z :=
  reading (si8900_get_reading buffer ref_byte).

(** The reading values decoded in the first [n] rounds, one per round. *)
Definition decoded_readings (mem : nat -> list Z) (ref_byte : Z) (n : nat) : list Z :=
  map (decoded ref_byte) (attempts mem n).

(** The values the loop adds up: those that differ from [FAILED]. *)
Definition counted (l : list Z) : list Z :=
  filter (fun v => negb (v =? FAILED)) l.

(** An attempt succeeds when its echo byte matches [ref_byte]. *)
Definition echo_ok (ref_byte : Z) (buffer : list Z) : bool :=
  deref buffer 0 =? ref_byte.

(** The reading values decoded from the successful ones of the first
    [n] attempts. *)
Definition successful_readings (mem : nat -> list Z) (ref_byte : Z) (n : nat) : list Z :=
  map (decoded ref_byte) (filter (echo_ok ref_byte) (attempts mem n)).

Definition sum (l : list Z) : Z := fold_right Z.add 0 l.

(** The integer mean of non-negative values: the quotient of the sum by
    the number of values, the fraction dropped. *)
Definition mean (l : list Z) : Z := sum l / Z.of_nat (length l).

(** A buffer that is refilled with the packets of [l], one per round. *)
Definition refilled (l : list (list Z)) : nat -> list Z :=
  fun i => nth i l [].

End Oversampling.

Export Oversampling.

(** ** [si8900_auto_baud] *)

Module Handshake.

(** What the receive side does while the function runs: before each
    received byte the function polls the receive flag [idle_polls]
    times without finding it set. *)
Record rx_event : Set := {
  idle_polls : nat;
  rx_byte : Z
}.

(** The locals and the bytes written to [UART_TX_BUFF], oldest first. *)
Record handshake : Set := {
  Code_receive : Z;
  Code_confirm : Z;
  hold_value : Z;
  transmitted : list Z
}.

(** One round of the outer loop, with the byte of [e] arriving.

    [while (!(UART_IFG_REG & UART_RX_IFG)) UART_TX_BUFF = CAL_BYTE;]
    sends the calibration byte once per unsuccessful poll.
    [hold_value] is a [char]; [CONFIRM] is 0x55, below 128, so the
    comparison holds exactly when the low eight bits of the received
    value are 0x55, whether [char] is signed or not. *)
Definition auto_baud_body (st : handshake) (e : rx_event) : handshake :=
  let tx := transmitted st ++ repeat CAL_BYTE (idle_polls e) in
  let hold := u8 (rx_byte e) in
  if hold =? CONFIRM then
    let confirm := if Code_receive st =? 1 then 1 else Code_confirm st in
    {| Code_receive := 1;
       Code_confirm := confirm;
       hold_value := hold;
       transmitted := tx ++ [CAL_BYTE] |}
  else
    {| Code_receive := 0;
       Code_confirm := 0;
       hold_value := hold;
       transmitted := tx ++ [CAL_BYTE; CAL_BYTE] |}.

(** Where a run over a finite list of received bytes ends: the function
    has returned [ret], leaving the events [pending], or it is still
    in its loop, polling for a byte after the last listed one. *)
Inductive progress : Set :=
| Returned (ret : Z) (st : handshake) (pending : list rx_event)
| Polling (st : handshake).

(** [while ((Code_receive & Code_confirm) == 0) { ... } return 0;] *)
Fixpoint auto_baud_while (rx : list rx_event) (st : handshake) : progress :=
  if Z.land (Code_receive st) (Code_confirm st) =? 0 then
    match rx with
    | [] => Polling st
    | e :: rx' => auto_baud_while rx' (auto_baud_body st e)
    end
  else Returned 0 st rx.

(** [uint8_t si8900_auto_baud(void)] *)
Definition si8900_auto_baud (rx : list rx_event) : progress :=
  auto_baud_while rx
    {| Code_receive := 0;
       Code_confirm := 0;
       hold_value := 0;
       transmitted := [CAL_BYTE] |}.

(** The received values are bytes. *)
Definition byte_event (e : rx_event) : Prop := 0 <= rx_byte e < 256.

(** The states in which the loop goes on: nothing confirmed yet, or one
    confirmation byte just received. *)
Definition in_loop (st : handshake) : Prop :=
  Code_confirm st = 0 /\ (Code_receive st = 0 \/ Code_receive st = 1).

Definition has_returned (p : progress) : bool :=
  match p with Returned _ _ _ => true | Polling _ => false end.

Definition is_confirm (e : rx_event) : bool := rx_byte e =? 0x55.

Definition starts_with_confirm (rx : list rx_event) : bool :=
  match rx with e :: _ => is_confirm e | [] => false end.

(** Two bytes in a row are the confirmation byte, somewhere in [rx]. *)
Fixpoint two_consecutive_confirms (rx : list rx_event) : bool :=
  match rx with
  | [] => false
  | e :: rx' =>
      (is_confirm e && starts_with_confirm rx') || two_consecutive_confirms rx'
  end.

(** An endless stream of received bytes and its first [n] events. *)
Definition rx_stream : Set := nat -> rx_event.

Definition first_events (s : rx_stream) (n : nat) : list rx_event :=
  map s (seq 0 n).

(** The function returns [ret] on the stream: it does so after finitely
    many received bytes. *)
Definition returns_on (s : rx_stream) (ret : Z) : Prop :=
  exists n st pending, si8900_auto_baud (first_events s n) = Returned ret st pending.

(** The function never returns on the stream: however many bytes have
    arrived, it is still in its loop. *)
Definition never_returns_on (s : rx_stream) : Prop :=
  forall n, has_returned (si8900_auto_baud (first_events s n)) = false.

Definition received (b : Z) : rx_event := {| idle_polls := 0; rx_byte := b |}.

End Handshake.

Export Handshake.

(** ** Checking a property on a range of integers by evaluation *)

Module Range.

(** [all_from n x f]: [f] holds on [x], [x + 1], ..., [x + n - 1]. *)
Fixpoint all_from (n : nat) (x : Z) (f : Z -> bool) : bool :=
  match n with
  | O => true
  | S n' => f x && all_from n' (x + 1) f
  end.

(** The round trip of the wire format at channel [c] and reading [r]:
    the decoded channel is [c] and the decoded reading is [r] plus
    [offset]. *)
Definition decodes_with_offset (cmd c offset r : Z) : bool :=
  let t := si8900_get_reading (response_packet cmd c r) cmd in
  (inch t =? c) && (reading t =? r + offset).

End Range.

Export Range.

(** ** [si8900_send_cmd] *)

Module SendCmd.

(** Where a run over a finite list of received bytes ends: the function
    has returned, having written [sent] to [UART_TX_BUFF] (oldest first)
    and leaving the bytes [pending] unread, or it is still waiting for a
    response after the last listed byte. *)
Inductive send_progress : Set :=
| Sent (sent : list Z) (pending : list Z)
| Awaiting_echo (sent : list Z).

(** [do { ... } while (hold_value != cmd_byte);] with the bytes written so
    far.  The two inner loops have empty bodies: they only wait, for the
    transmit flag (taken to come up) and for the receive flag.
    [hold_value] is a [uint8_t]. *)
Fixpoint send_cmd_do (cmd_byte : Z) (rx : list Z) (sent : list Z) : send_progress :=
  let sent := sent ++ [cmd_byte] in
  match rx with
  | [] => Awaiting_echo sent
  | b :: rx' =>
      let hold_value := u8 b in
      if negb (hold_value =? cmd_byte) then send_cmd_do cmd_byte rx' sent
      else Sent sent rx'
  end.

(** [void si8900_send_cmd(si8900_cfg cmd_byte)] *)
Definition si8900_send_cmd (cmd_byte : Z) (rx : list Z) : send_progress :=
  send_cmd_do (u8 cmd_byte) rx [].

Definition has_sent (p : send_progress) : bool :=
  match p with Sent _ _ => true | Awaiting_echo _ => false end.

(** The first [n] bytes of an endless stream of received bytes. *)
Definition first_bytes (s : nat -> Z) (n : nat) : list Z := map s (seq 0 n).

End SendCmd.

Export SendCmd.

(** ** Counting what the handshake transmits *)

Module Transmissions.

(** The calibration bytes one round of [si8900_auto_baud] writes: one per
    unsuccessful poll, one more after a confirmation byte, two more after
    any other byte. *)
Definition calibration_sends (e : rx_event) : nat :=
  (idle_polls e + (if is_confirm e then 1 else 2))%nat.

Definition total_sends (rx : list rx_event) : nat :=
  fold_right (fun e n => (calibration_sends e + n)%nat) 0%nat rx.

End Transmissions.

Export Transmissions.

(** ** Combining command fields with [+] *)

Module CommandSum.

(** The header allows the fields to be combined with ADD as well:
    [(uint8_t)(<PGA_x> + <MODE_x> + <REF_x> + <INCH_x>)]. *)
Definition cmd_byte_sum (p : pga_field) (m : mode_field) (r : ref_field)
    (c : inch_field) : si8900_cfg :=
  u8 (pga_bits p + mode_bits m + ref_bits r + inch_bits c).

(** The fields read back from a command byte. *)
Definition pga_of (cmd : Z) : pga_field :=
  if Z.testbit cmd 0 then Gain_one else Gain_half.
Definition mode_of (cmd : Z) : mode_field :=
  if Z.testbit cmd 1 then Stream_read else Single_read.
Definition ref_of (cmd : Z) : ref_field :=
  if Z.testbit cmd 3 then Ref_external else Ref_vdd.
Definition inch_of (cmd : Z) : inch_field :=
  match GET_INCH cmd with
  | 0 => Channel_0
  | 1 => Channel_1
  | _ => Channel_2
  end.

End CommandSum.

Export CommandSum.

(** * Properties *)

(** ** Fixed-width integers and ranges *)

Lemma u8_small (x : Z) : 0 <= x < 256 -> u8 x = x.
Proof. intros H. unfold u8. apply Z.mod_small. exact H. Qed.

Lemma u16_small (x : Z) : 0 <= x < 65536 -> u16 x = x.
Proof. intros H. unfold u16. apply Z.mod_small. exact H. Qed.

Lemma u8_range (x : Z) : 0 <= u8 x < 256.
Proof. unfold u8. apply Z.mod_pos_bound. lia. Qed.

Lemma u16_range (x : Z) : 0 <= u16 x < 65536.
Proof. unfold u16. apply Z.mod_pos_bound. lia. Qed.

Lemma u16_add_idemp (x y : Z) : u16 (u16 x + y) = u16 (x + y).
Proof. unfold u16. apply Zplus_mod_idemp_l. Qed.

Lemma u8_add_idemp (x y : Z) : u8 (u8 x + y) = u8 (x + y).
Proof. unfold u8. apply Zplus_mod_idemp_l. Qed.

Lemma all_from_spec (f : Z -> bool) (n : nat) :
  forall x, all_from n x f = true ->
  forall y, x <= y < x + Z.of_nat n -> f y = true.
Proof.
  induction n as [|n IH]; intros x Hall y Hy.
  - simpl in Hy. lia.
  - simpl in Hall. apply andb_true_iff in Hall. destruct Hall as [Hx Hrest].
    destruct (Z.eq_dec y x) as [->|Hne]; [exact Hx|].
    apply (IH (x + 1) Hrest). lia.
Qed.

Lemma all_from_range (f : Z -> bool) (len x : Z) :
  all_from (Z.to_nat len) x f = true ->
  forall y, x <= y < x + len -> f y = true.
Proof.
  intros Hall y Hy. apply (all_from_spec f (Z.to_nat len) x Hall).
  rewrite Z2Nat.id by lia. exact Hy.
Qed.

(** Shifting a positive number right by one drops its lowest digit, which
    is what the recursion of [bit_reverse_loop] follows. *)
Lemma shiftr_1_digits (p : positive) :
  Z.shiftr (Z.pos p~0) 1 = Z.pos p /\ Z.shiftr (Z.pos p~1) 1 = Z.pos p
  /\ Z.shiftr 1 1 = 0.
Proof. repeat split. Qed.

(** ** Command byte *)

(** C7, as stated, fails: the stream-mode constant is 0x02, not 0x04; in
    the stream-mode command byte [GP_SINGLE_READ_0] bit 1 is set and
    bit 2 is clear. *)
Lemma mode_field_is_not_bit_2 :
  MODE_1 <> 0x04
  /\ Z.testbit (cmd_byte_of Gain_half Stream_read Ref_vdd Channel_0) 1 = true
  /\ Z.testbit (cmd_byte_of Gain_half Stream_read Ref_vdd Channel_0) 2 = false
  /\ cmd_byte_of Gain_half Stream_read Ref_vdd Channel_0 = GP_SINGLE_READ_0.
Proof. repeat split. discriminate. Qed.

(** C7 (amended): in the assembled command byte the MODE field occupies
    bit 1 (the stream-mode constant is 0x02) and bit 2 is unused and always
    zero; VREF occupies bit 3 (the external reference constant is 0x08) and
    PGA occupies bit 0; bits 7 and 6 are set and bits 5:4 carry the
    channel. *)
Theorem command_byte_layout :
  MODE_1 = 0x02 /\ REF_1 = 0x08 /\ PGA_1 = 0x01
  /\ MODE_0 = 0 /\ REF_0 = 0 /\ PGA_0 = 0
  /\ forall (p : pga_field) (m : mode_field) (r : ref_field) (c : inch_field),
       let cmd := cmd_byte_of p m r c in
       Z.testbit cmd 0 = (match p with Gain_one => true | Gain_half => false end)
       /\ Z.testbit cmd 1 = (match m with Stream_read => true | Single_read => false end)
       /\ Z.testbit cmd 2 = false
       /\ Z.testbit cmd 3 = (match r with Ref_external => true | Ref_vdd => false end)
       /\ Z.shiftr (Z.land cmd 0x30) 4
          = (match c with Channel_0 => 0 | Channel_1 => 1 | Channel_2 => 2 end)
       /\ Z.shiftr cmd 6 = 3
       /\ 0 <= cmd < 256.
Proof.
  repeat split; try reflexivity; destruct p, m, r, c; vm_compute; congruence.
Qed.

(** ** Decoding one packet *)

Lemma get_reading_mismatch (buffer : list Z) (ref_byte : Z) :
  deref buffer 0 <> ref_byte ->
  si8900_get_reading buffer ref_byte
  = {| cmd_byte := deref buffer 0; inch := FAILED; reading := FAILED |}.
Proof.
  intros Hne. unfold si8900_get_reading.
  apply Z.eqb_neq in Hne. rewrite Hne. reflexivity.
Qed.

Lemma get_reading_match (buffer : list Z) (ref_byte : Z) :
  deref buffer 0 = ref_byte ->
  si8900_get_reading buffer ref_byte
  = {| cmd_byte := ref_byte;
       inch := GET_INCH (deref buffer 1);
       reading := GET_READING (PACKET_JOIN (deref buffer 1) (deref buffer 2)) |}.
Proof.
  intros He. unfold si8900_get_reading.
  apply Z.eqb_eq in He. rewrite He. apply Z.eqb_eq in He. rewrite He. reflexivity.
Qed.

(** The channel is two bits and the reading eleven bits of its argument. *)
Lemma GET_INCH_bits (packet : Z) : GET_INCH packet = Z.shiftr packet 4 mod 4.
Proof.
  unfold GET_INCH. rewrite Z.shiftr_land.
  change (Z.shiftr 0x30 4) with (Z.ones 2).
  rewrite Z.land_ones by lia. change (2 ^ 2) with 4.
  apply u8_small.
  pose proof (Z.mod_pos_bound (Z.shiftr packet 4) 4 ltac:(lia)). lia.
Qed.

Lemma GET_READING_bits (packet : Z) : GET_READING packet = Z.shiftr packet 1 mod 2048.
Proof.
  unfold GET_READING. rewrite Z.shiftr_land.
  change (Z.shiftr 0x0FFE 1) with (Z.ones 11).
  rewrite Z.land_ones by lia. change (2 ^ 11) with 2048.
  apply u16_small.
  pose proof (Z.mod_pos_bound (Z.shiftr packet 1) 2048 ltac:(lia)). lia.
Qed.

Lemma GET_INCH_range (packet : Z) : 0 <= GET_INCH packet <= 3.
Proof.
  rewrite GET_INCH_bits.
  pose proof (Z.mod_pos_bound (Z.shiftr packet 4) 4 ltac:(lia)). lia.
Qed.

Lemma GET_READING_range (packet : Z) : 0 <= GET_READING packet <= 2047.
Proof.
  rewrite GET_READING_bits.
  pose proof (Z.mod_pos_bound (Z.shiftr packet 1) 2048 ltac:(lia)). lia.
Qed.

Lemma get_reading_reading_range (buffer : list Z) (ref_byte : Z) :
  0 <= reading (si8900_get_reading buffer ref_byte) <= 2047.
Proof.
  unfold si8900_get_reading.
  destruct (deref buffer 0 =? ref_byte); cbn [reading].
  - apply GET_READING_range.
  - vm_compute. split; discriminate.
Qed.

(** C8: for every 3-byte buffer and every [ref_byte], if the first byte
    differs from [ref_byte], whatever its value, [si8900_get_reading]
    returns a struct whose [inch] and [reading] both equal [FAILED]. *)
Theorem get_reading_echo_mismatch_fails (b0 b1 b2 ref_byte : Z) :
  b0 <> ref_byte ->
  inch (si8900_get_reading [b0; b1; b2] ref_byte) = FAILED
  /\ reading (si8900_get_reading [b0; b1; b2] ref_byte) = FAILED.
Proof.
  intros Hne. rewrite get_reading_mismatch by exact Hne. split; reflexivity.
Qed.

Lemma get_reading_echo_mismatch_fails_witness :
  0x00 <> GP_SINGLE_READ_0
  /\ inch (si8900_get_reading [0x00; 0x83; 0x7E] GP_SINGLE_READ_0) = FAILED
  /\ reading (si8900_get_reading [0x00; 0x83; 0x7E] GP_SINGLE_READ_0) = FAILED.
Proof.
  split.
  - discriminate.
  - apply (get_reading_echo_mismatch_fails 0x00 0x83 0x7E GP_SINGLE_READ_0).
    discriminate.
Defined.




(** The round trip evaluated on the 1024 readings of each channel. *)
Lemma round_trip_evaluated :
  all_from (Z.to_nat 1024) 0 (decodes_with_offset 0 0 0) = true
  /\ all_from (Z.to_nat 1024) 0 (decodes_with_offset 0 1 1024) = true
  /\ all_from (Z.to_nat 1024) 0 (decodes_with_offset 0 2 0) = true.
Proof. repeat split; vm_compute; reflexivity. Qed.

(** The round trip of the wire format, channel by channel: channels 0 and
    2 decode to the reading that was packed; on channel 1 the low channel
    bit, bit 11 of the joined packet, is inside the mask [0x0FFE] and the
    decoded reading is 1024 too high. *)
Lemma round_trip_by_channel (cmd c r : Z) :
  0 <= c <= 2 -> 0 <= r <= 1023 ->
  inch (si8900_get_reading (response_packet cmd c r) cmd) = c
  /\ reading (si8900_get_reading (response_packet cmd c r) cmd)
     = r + (if c =? 1 then 1024 else 0).
Proof.
  intros Hc Hr.
  assert (Hcases : c = 0 \/ c = 1 \/ c = 2) by lia.
  assert (Hr' : 0 <= r < 0 + 1024) by lia.
  assert (Hcmd : forall c0,
            inch (si8900_get_reading (response_packet cmd c0 r) cmd)
            = inch (si8900_get_reading (response_packet 0 c0 r) 0)
            /\ reading (si8900_get_reading (response_packet cmd c0 r) cmd)
               = reading (si8900_get_reading (response_packet 0 c0 r) 0)).
  { intros c0. rewrite !get_reading_match by reflexivity. split; reflexivity. }
  assert (Hall : forall c0 off,
            all_from (Z.to_nat 1024) 0 (decodes_with_offset 0 c0 off) = true ->
            inch (si8900_get_reading (response_packet cmd c0 r) cmd) = c0
            /\ reading (si8900_get_reading (response_packet cmd c0 r) cmd) = r + off).
  { intros c0 off Hall. destruct (Hcmd c0) as [Hi0 Hv0]. rewrite Hi0, Hv0.
    pose proof (all_from_range _ _ _ Hall r Hr') as Hd.
    unfold decodes_with_offset in Hd. apply andb_true_iff in Hd.
    destruct Hd as [Hi Hv]. apply Z.eqb_eq in Hi, Hv. split; assumption. }
  destruct round_trip_evaluated as (H0 & H1 & H2).
  destruct Hcases as [-> | [-> | ->]]; cbn [Z.eqb Pos.eqb]; apply Hall; assumption.
Qed.

(** C1, at the failing input: the packet for channel 1 and reading 0,
    [D2 90 00], decoded against its command byte, gives the channel 1 and
    the reading 1024 where 0 was packed; 1024 is not a 10-bit value. *)
Theorem round_trip_channel_1_reads_1024_high :
  response_packet GP_SINGLE_READ_1 1 0 = [0xD2; 0x90; 0x00]
  /\ si8900_get_reading (response_packet GP_SINGLE_READ_1 1 0) GP_SINGLE_READ_1
     = {| cmd_byte := GP_SINGLE_READ_1; inch := 1; reading := 1024 |}
  /\ reading (si8900_get_reading (response_packet GP_SINGLE_READ_1 1 0) GP_SINGLE_READ_1)
     <> 0.
Proof. repeat split. discriminate. Qed.

(** ** Bit reversal *)

Lemma u16_testbit (x i : Z) :
  0 <= i -> Z.testbit (u16 x) i = (i <? 16) && Z.testbit x i.
Proof.
  intros Hi. unfold u16. change 65536 with (2 ^ 16).
  destruct (Z.ltb_spec i 16).
  - rewrite Z.mod_pow2_bits_low by lia. reflexivity.
  - rewrite Z.mod_pow2_bits_high by lia. reflexivity.
Qed.

Lemma testbit_1 (i : Z) : Z.testbit 1 i = (0 =? i).
Proof. change 1 with (2 ^ 0). apply Z.pow2_bits_eqb. lia. Qed.

(** Bits at and above [n] of a number below [2 ^ n] are clear. *)
Lemma testbit_above (x n i : Z) :
  0 <= x < 2 ^ n -> 0 <= n <= i -> Z.testbit x i = false.
Proof.
  intros Hx Hi. rewrite <- (Z.mod_small x (2 ^ n)) by exact Hx.
  apply Z.mod_pow2_bits_high. exact Hi.
Qed.

(** One round of the loop on [reverse]: the bits move up by one and the
    lowest bit of [num] comes in at the bottom. *)
Lemma round_testbit (reverse num i : Z) :
  0 <= i ->
  Z.testbit (u16 (Z.lor (u16 (Z.shiftl reverse 1)) (Z.land num 1))) i
  = (i <? 16) && (if i =? 0 then Z.testbit num 0 else Z.testbit reverse (i - 1)).
Proof.
  intros Hi.
  rewrite u16_testbit, Z.lor_spec, u16_testbit, Z.shiftl_spec, Z.land_spec, testbit_1 by lia.
  destruct (Z.eqb_spec i 0) as [->|Hne].
  - cbn [Z.ltb Z.compare andb]. rewrite Z.testbit_neg_r by lia.
    cbn [Z.eqb orb]. rewrite andb_true_r. reflexivity.
  - assert (H0 : (0 =? i) = false) by (apply Z.eqb_neq; lia).
    rewrite H0, andb_false_r, orb_false_r.
    destruct (i <? 16); reflexivity.
Qed.

Lemma testbit_pos_digit (rest : positive) (n : Z) :
  0 <= n ->
  Z.testbit (Z.pos rest~0) (n + 1) = Z.testbit (Z.pos rest) n
  /\ Z.testbit (Z.pos rest~1) (n + 1) = Z.testbit (Z.pos rest) n.
Proof.
  intros Hn. split.
  - change (Z.pos rest) with (Z.shiftr (Z.pos rest~0) 1).
    rewrite Z.shiftr_spec by exact Hn. reflexivity.
  - change (Z.pos rest) with (Z.shiftr (Z.pos rest~1) 1).
    rewrite Z.shiftr_spec by exact Hn. reflexivity.
Qed.

(** What the loop leaves in [reverse]: the digits of [num >> 1], lowest
    digit highest, below the bits [reverse] had before. *)
Lemma bit_reverse_loop_bits (bits : positive) :
  forall reverse size i,
    0 <= i < 16 ->
    Z.testbit (fst (bit_reverse_loop bits reverse size)) i
    = if i <? Z.pos (Pos.size bits)
      then Z.testbit (Z.pos bits) (Z.pos (Pos.size bits) - 1 - i)
      else Z.testbit reverse (i - Z.pos (Pos.size bits)).
Proof.
  induction bits as [rest IH | rest IH | ]; intros reverse size i Hi;
    cbn [bit_reverse_loop Pos.size fst].
  1, 2: rewrite IH by exact Hi; rewrite Pos2Z.inj_succ;
    destruct (Z.ltb_spec i (Z.pos (Pos.size rest))) as [Hlt|Hge].
  1, 3: assert (H1 : (i <? Z.succ (Z.pos (Pos.size rest))) = true) by (apply Z.ltb_lt; lia);
    rewrite H1;
    replace (Z.succ (Z.pos (Pos.size rest)) - 1 - i)
      with (Z.pos (Pos.size rest) - 1 - i + 1) by lia;
    symmetry; apply testbit_pos_digit; lia.
  1, 2: rewrite round_testbit by lia;
    assert (H16 : (i - Z.pos (Pos.size rest) <? 16) = true) by (apply Z.ltb_lt; lia);
    rewrite H16; cbn [andb];
    destruct (Z.eqb_spec (i - Z.pos (Pos.size rest)) 0) as [He|Hne];
    [ assert (H1 : (i <? Z.succ (Z.pos (Pos.size rest))) = true) by (apply Z.ltb_lt; lia)
    | assert (H1 : (i <? Z.succ (Z.pos (Pos.size rest))) = false) by (apply Z.ltb_ge; lia) ];
    rewrite H1; f_equal; lia.
  - rewrite round_testbit by lia.
    assert (H16 : (i <? 16) = true) by (apply Z.ltb_lt; lia).
    rewrite H16. cbn [andb].
    destruct (Z.eqb_spec i 0) as [->|Hne]; [reflexivity|].
    assert (H1 : (i <? 1) = false) by (apply Z.ltb_ge; lia).
    rewrite H1. reflexivity.
Qed.

(** Each round of the loop takes one from [size], modulo 256, and the
    loop has as many rounds as [num >> 1] has binary digits. *)
Lemma bit_reverse_loop_size (bits : positive) :
  forall reverse size,
    snd (bit_reverse_loop bits reverse size) = u8 (size - Z.pos (Pos.size bits)).
Proof.
  induction bits as [rest IH | rest IH | ]; intros reverse size;
    cbn [bit_reverse_loop Pos.size snd].
  - rewrite IH. unfold u8. rewrite Zminus_mod_idemp_l. f_equal. lia.
  - rewrite IH. unfold u8. rewrite Zminus_mod_idemp_l. f_equal. lia.
  - reflexivity.
Qed.

(** A positive number has at least as many digits as its size says, and
    no more. *)
Lemma size_bounds (bits : positive) :
  2 ^ Z.pos (Pos.size bits) <= 2 * Z.pos bits /\ Z.pos bits < 2 ^ Z.pos (Pos.size bits).
Proof.
  split.
  - rewrite <- Pos2Z.inj_pow. change (2 * Z.pos bits) with (Z.pos bits~0).
    apply Pos2Z.pos_le_pos. apply Pos.size_le.
  - rewrite <- Pos2Z.inj_pow. apply Pos2Z.pos_lt_pos. apply Pos.size_gt.
Qed.

Lemma size_of_15_bits (bits : positive) :
  Z.pos bits < 32768 -> Z.pos (Pos.size bits) <= 15.
Proof.
  intros Hhi. destruct (size_bounds bits) as [Hle _].
  destruct (Z.le_gt_cases (Z.pos (Pos.size bits)) 15) as [H|H]; [exact H|].
  assert (Hp : 2 ^ 16 <= 2 ^ Z.pos (Pos.size bits)).
  { apply Z.pow_le_mono_r; lia. }
  change (2 ^ 16) with 65536 in Hp. lia.
Qed.

Lemma size_of_2_bits (bits : positive) :
  2 <= Z.pos bits -> 2 <= Z.pos (Pos.size bits).
Proof.
  intros Hlo. destruct (size_bounds bits) as [_ Hgt].
  destruct (Z.le_gt_cases 2 (Z.pos (Pos.size bits))) as [H|H]; [exact H|].
  assert (Hs : Z.pos (Pos.size bits) = 1) by lia.
  rewrite Hs in Hgt. change (2 ^ 1) with 2 in Hgt. lia.
Qed.

(** The 16-bit reversal of the function's description, bit by bit. *)
Lemma reversal_testbit (width : nat) :
  forall x i,
    0 <= i ->
    Z.testbit (reversal width x) i
    = (i <? Z.of_nat width) && Z.testbit x (Z.of_nat width - 1 - i).
Proof.
  induction width as [|w IH]; intros x i Hi.
  - cbn [reversal]. rewrite Z.bits_0.
    assert (H0 : (i <? Z.of_nat 0) = false) by (apply Z.ltb_ge; cbn; lia).
    rewrite H0. reflexivity.
  - cbn [reversal].
    rewrite Z.lor_spec, Z.shiftl_spec, Z.land_spec, testbit_1, IH by lia.
    rewrite Nat2Z.inj_succ.
    destruct (Z.lt_trichotomy i (Z.of_nat w)) as [Hlt | [-> | Hgt]].
    + assert (H0 : (0 =? i - Z.of_nat w) = false) by (apply Z.eqb_neq; lia).
      assert (H1 : (i <? Z.of_nat w) = true) by (apply Z.ltb_lt; lia).
      assert (H2 : (i <? Z.succ (Z.of_nat w)) = true) by (apply Z.ltb_lt; lia).
      rewrite H0, H1, H2, andb_false_r. cbn [orb andb].
      rewrite Z.shiftr_spec by lia. f_equal. lia.
    + assert (H2 : (Z.of_nat w <? Z.succ (Z.of_nat w)) = true) by (apply Z.ltb_lt; lia).
      rewrite Z.ltb_irrefl, H2, Z.sub_diag. cbn [Z.eqb andb orb].
      rewrite andb_true_r, orb_false_r. f_equal. lia.
    + assert (H0 : (0 =? i - Z.of_nat w) = false) by (apply Z.eqb_neq; lia).
      assert (H1 : (i <? Z.of_nat w) = false) by (apply Z.ltb_ge; lia).
      assert (H2 : (i <? Z.succ (Z.of_nat w)) = false) by (apply Z.ltb_ge; lia).
      rewrite H0, H1, H2, andb_false_r. reflexivity.
Qed.

(** The 16-bit reversal of the function's description is an involution. *)
Lemma reverse_bits_16_involutive (x : Z) :
  0 <= x < 65536 -> reverse_bits_16 (reverse_bits_16 x) = x.
Proof.
  intros Hx. unfold reverse_bits_16. apply Z.bits_inj'. intros i Hi.
  rewrite reversal_testbit by exact Hi. change (Z.of_nat 16) with 16.
  destruct (Z.ltb_spec i 16) as [Hlt|Hge]; cbn [andb].
  - rewrite reversal_testbit by lia. change (Z.of_nat 16) with 16.
    assert (H1 : (16 - 1 - i <? 16) = true) by (apply Z.ltb_lt; lia).
    rewrite H1. cbn [andb]. f_equal. lia.
  - symmetry. apply (testbit_above x 16); [exact Hx|lia].
Qed.

(** With [size] started at [sizeof(num) * CHAR_BIT - 1], which is 15, the
    body of [bit_reverse] returns the 16-bit reversal on every input. *)
Lemma bit_reverse_from_char_bit (x : Z) :
  0 <= x < 65536 ->
  bit_reverse_from (u8 (sizeof_uint16_t * CHAR_BIT - 1)) x = Returns (reverse_bits_16 x).
Proof.
  intros Hx. change (u8 (sizeof_uint16_t * CHAR_BIT - 1)) with 15.
  unfold bit_reverse_from, bit_reverse_for.
  assert (Hhalf : 0 <= Z.shiftr x 1 < 32768).
  { rewrite Z.shiftr_div_pow2 by lia. change (2 ^ 1) with 2.
    split; [apply Z.div_pos; lia|apply Z.div_lt_upper_bound; lia]. }
  destruct (Z.shiftr x 1) as [|bits|bits] eqn:Hshift; try lia.
  - assert (Hx01 : x = 0 \/ x = 1).
    { rewrite Z.shiftr_div_pow2 in Hshift by lia. change (2 ^ 1) with 2 in Hshift.
      pose proof (Z.div_mod x 2 ltac:(lia)) as Hdm.
      pose proof (Z.mod_pos_bound x 2 ltac:(lia)). lia. }
    destruct Hx01 as [-> | ->]; reflexivity.
  - pose proof (bit_reverse_loop_size bits x 15) as Hsize.
    pose proof (bit_reverse_loop_bits bits x 15) as Hbits.
    pose proof (size_of_15_bits bits ltac:(lia)) as Hk.
    destruct (size_bounds bits) as [_ Hgt].
    destruct (bit_reverse_loop bits x 15) as [reverse size]. cbn [fst snd] in *.
    set (k := Z.pos (Pos.size bits)) in *.
    assert (Hk1 : 1 <= k) by (unfold k; lia).
    assert (Hs : size = 15 - k) by (rewrite Hsize; apply u8_small; lia).
    assert (Hlt : (size <? 16) = true) by (apply Z.ltb_lt; lia).
    rewrite Hlt, Hs. f_equal. apply Z.bits_inj'. intros i Hi.
    unfold reverse_bits_16.
    rewrite u16_testbit, reversal_testbit by exact Hi. change (Z.of_nat 16) with 16.
    destruct (Z.ltb_spec i 16) as [Hi16|Hi16]; cbn [andb]; [|reflexivity].
    rewrite Z.shiftl_spec by exact Hi.
    assert (Hdigit : forall m, 0 <= m -> Z.testbit (Z.pos bits) m = Z.testbit x (m + 1)).
    { intros m Hm. rewrite <- Hshift. apply Z.shiftr_spec. exact Hm. }
    destruct (Z.lt_ge_cases (i - (15 - k)) 0) as [Hneg|Hnn].
    + rewrite Z.testbit_neg_r by exact Hneg.
      replace (16 - 1 - i) with ((14 - i) + 1) by lia.
      rewrite <- Hdigit by lia. symmetry.
      apply (testbit_above (Z.pos bits) k); lia.
    + rewrite Hbits by lia.
      destruct (Z.ltb_spec (i - (15 - k)) k) as [Hlow|Hhigh].
      * rewrite Hdigit by lia. f_equal. lia.
      * f_equal. lia.
Qed.

(** The code starts [size] at [sizeof(num) * sizeof(uint8_t) - 1], which
    is 1: the last shift is by 1 for [num <= 1], by 0 for [num] 2 or 3. *)
Lemma bit_reverse_size_is_1 : bit_reverse_size = 1.
Proof. reflexivity. Qed.

(** From 4 on, [size] has wrapped below zero before the last shift, whose
    count is then too large for a 16-bit operand. *)
Lemma bit_reverse_undefined_from_4 (x : Z) :
  4 <= x < 65536 -> bit_reverse x = Undefined ShiftCountTooLarge.
Proof.
  intros Hx. unfold bit_reverse, bit_reverse_from, bit_reverse_for.
  rewrite u16_small by lia.
  assert (Hhalf : 2 <= Z.shiftr x 1 < 32768).
  { rewrite Z.shiftr_div_pow2 by lia. change (2 ^ 1) with 2.
    split.
    - apply Z.div_le_lower_bound; lia.
    - apply Z.div_lt_upper_bound; lia. }
  destruct (Z.shiftr x 1) as [|bits|bits]; try lia.
  pose proof (bit_reverse_loop_size bits x bit_reverse_size) as Hsize.
  pose proof (size_of_15_bits bits ltac:(lia)) as Hhi.
  pose proof (size_of_2_bits bits ltac:(lia)) as Hlo.
  destruct (bit_reverse_loop bits x bit_reverse_size) as [reverse size].
  cbn [snd] in Hsize. rewrite bit_reverse_size_is_1 in Hsize.
  assert (Hs : size = 257 - Z.pos (Pos.size bits)).
  { rewrite Hsize. unfold u8.
    replace (1 - Z.pos (Pos.size bits)) with (257 - Z.pos (Pos.size bits) + (-1) * 256) by lia.
    rewrite Z_mod_plus_full. apply Z.mod_small. lia. }
  assert (Hlt : (size <? 16) = false) by (apply Z.ltb_ge; lia).
  rewrite Hlt. reflexivity.
Qed.

(** C4, at the failing input: [bit_reverse(0x0001)] is 0x0002 and not
    0x8000; reversing again gives [bit_reverse(0x0002)], which is 0x0005
    and not 0x0001; and [bit_reverse(0x8000)] shifts by 242 and returns no
    defined value. *)
Theorem bit_reverse_of_1_is_2 :
  bit_reverse 0x0001 = Returns 0x0002
  /\ bit_reverse 0x0001 <> Returns 0x8000
  /\ bit_reverse 0x0002 = Returns 0x0005
  /\ bit_reverse 0x8000 = Undefined ShiftCountTooLarge
  /\ bit_reverse_for 0x8000 0x8000 bit_reverse_size = (0x0001, 242)
  /\ reverse_bits_16 0x0001 = 0x8000.
Proof. repeat split. discriminate. Qed.

(** ** Oversampling *)

Section OversampleLoop.

Variable mem : nat -> list Z.
Variable ref_byte : Z.

Lemma oversample_body_counts (buffer : list Z) (st : locals) :
  oversample_body buffer ref_byte st
  = {| entries := if decoded ref_byte buffer =? FAILED then entries st
                  else u8 (entries st + 1);
       vals := if decoded ref_byte buffer =? FAILED then vals st
               else u16 (vals st + decoded ref_byte buffer);
       temp := Some (si8900_get_reading buffer ref_byte) |}.
Proof.
  unfold oversample_body, decoded.
  destruct (reading (si8900_get_reading buffer ref_byte) =? FAILED); reflexivity.
Qed.

(** What the loop leaves in [entries] and [vals]: the number and the
    sum, each wrapped to its type, of the decoded values that differ
    from [FAILED]. *)
Lemma oversample_for_totals (n : nat) :
  forall i st,
    0 <= entries st < 256 -> 0 <= vals st < 65536 ->
    let kept := counted (map (decoded ref_byte) (attempts_from mem i n)) in
    entries (oversample_for mem ref_byte n i st)
    = u8 (entries st + Z.of_nat (length kept))
    /\ vals (oversample_for mem ref_byte n i st) = u16 (vals st + sum kept).
Proof.
  induction n as [|n IH]; intros i st He Hv; cbn zeta.
  - cbn. rewrite !Z.add_0_r, u8_small, u16_small by assumption. split; reflexivity.
  - cbn [oversample_for attempts_from seq map counted filter].
    rewrite oversample_body_counts.
    specialize (IH (S i)). cbn zeta in IH. unfold attempts_from, counted in IH.
    destruct (decoded ref_byte (mem i) =? FAILED) eqn:Hd; cbn [negb].
    + destruct st as [e v t]; cbn [entries vals] in *.
      apply (IH {| entries := e; vals := v; temp := _ |}); assumption.
    + destruct (IH {| entries := u8 (entries st + 1);
                      vals := u16 (vals st + decoded ref_byte (mem i));
                      temp := Some (si8900_get_reading (mem i) ref_byte) |}
                   (u8_range _) (u16_range _)) as [IHe IHv].
      cbn [entries vals] in IHe, IHv. rewrite IHe, IHv.
      rewrite u8_add_idemp, u16_add_idemp.
      cbn [length sum fold_right]. split; f_equal; [lia|].
      fold (sum (filter (fun v => negb (v =? FAILED))
                   (map (decoded ref_byte) (map mem (seq (S i) n))))). lia.
Qed.

(** What the loop leaves in [temp]: the result of the last round. *)
Lemma oversample_for_temp (n : nat) :
  forall i st,
    temp (oversample_for mem ref_byte (S n) i st)
    = Some (si8900_get_reading (mem (i + n)%nat) ref_byte).
Proof.
  induction n as [|n IH]; intros i st.
  - cbn [oversample_for]. rewrite oversample_body_counts. cbn [temp].
    rewrite Nat.add_0_r. reflexivity.
  - change (oversample_for mem ref_byte (S (S n)) i st)
      with (oversample_for mem ref_byte (S n) (S i) (oversample_body (mem i) ref_byte st)).
    rewrite IH. do 2 f_equal. f_equal. lia.
Qed.

End OversampleLoop.

Lemma decoded_range (ref_byte : Z) (buffer : list Z) :
  0 <= decoded ref_byte buffer <= 2047.
Proof. apply get_reading_reading_range. Qed.

Lemma decoded_mismatch (ref_byte : Z) (buffer : list Z) :
  echo_ok ref_byte buffer = false -> decoded ref_byte buffer = FAILED.
Proof.
  unfold echo_ok, decoded. intros H. apply Z.eqb_neq in H.
  rewrite get_reading_mismatch by exact H. reflexivity.
Qed.

Lemma sum_decoded_nonneg (ref_byte : Z) (l : list (list Z)) :
  0 <= sum (map (decoded ref_byte) l).
Proof.
  induction l as [|b l IH]; cbn [map sum fold_right]; [lia|].
  fold (sum (map (decoded ref_byte) l)).
  pose proof (decoded_range ref_byte b). lia.
Qed.

Lemma sum_counted_nonneg (ref_byte : Z) (l : list (list Z)) :
  0 <= sum (counted (map (decoded ref_byte) l)).
Proof.
  induction l as [|b l IH]; cbn [map counted filter sum fold_right]; [lia|].
  fold (counted (map (decoded ref_byte) l)).
  destruct (negb (decoded ref_byte b =? FAILED)); [|exact IH].
  cbn [sum fold_right]. fold (sum (counted (map (decoded ref_byte) l))).
  pose proof (decoded_range ref_byte b). lia.
Qed.

Lemma length_counted (l : list Z) : (length (counted l) <= length l)%nat.
Proof. unfold counted. apply filter_length_le. Qed.

(** Where no successful attempt decodes to [FAILED], the loop adds up
    exactly the readings of the successful attempts. *)
Lemma counted_successful (ref_byte : Z) (l : list (list Z)) :
  (forall b, In b l -> echo_ok ref_byte b = true -> decoded ref_byte b <> FAILED) ->
  counted (map (decoded ref_byte) l) = map (decoded ref_byte) (filter (echo_ok ref_byte) l).
Proof.
  induction l as [|b l IH]; intros Hne; [reflexivity|].
  cbn [map counted filter]. fold (counted (map (decoded ref_byte) l)).
  rewrite IH by (intros b' Hin; apply Hne; right; exact Hin).
  destruct (echo_ok ref_byte b) eqn:Hok.
  - assert (Hd : decoded ref_byte b <> FAILED) by (apply Hne; [left; reflexivity|exact Hok]).
    apply Z.eqb_neq in Hd. rewrite Hd. reflexivity.
  - rewrite (decoded_mismatch _ _ Hok). rewrite Z.eqb_refl. reflexivity.
Qed.

(** Where every attempt fails the echo check, the loop counts nothing. *)
Lemma counted_all_failed (ref_byte : Z) (l : list (list Z)) :
  (forall b, In b l -> echo_ok ref_byte b = false) ->
  counted (map (decoded ref_byte) l) = [].
Proof.
  induction l as [|b l IH]; intros Hall; [reflexivity|].
  cbn [map counted filter]. fold (counted (map (decoded ref_byte) l)).
  rewrite (decoded_mismatch ref_byte b) by (apply Hall; left; reflexivity).
  rewrite Z.eqb_refl. cbn [negb]. apply IH. intros b' Hin. apply Hall. right. exact Hin.
Qed.

(** When the loop has counted nothing, the call divides by zero. *)
Lemma oversampled_nothing_counted (mem : nat -> list Z) (ref_byte sample_count : Z) :
  0 <= sample_count <= 255 ->
  counted (decoded_readings mem ref_byte (Z.to_nat sample_count)) = [] ->
  si8900_get_reading_oversampled mem ref_byte sample_count = Undefined DivisionByZero.
Proof.
  intros Hsc Hnone. unfold si8900_get_reading_oversampled.
  rewrite (u8_small sample_count) by lia.
  destruct (oversample_for_totals mem ref_byte (Z.to_nat sample_count) 0
              {| entries := 0; vals := 0; temp := None |}) as [He _];
    cbn [entries vals]; try lia.
  cbn zeta in He. cbn [entries] in He.
  unfold decoded_readings, attempts in Hnone. rewrite Hnone in He.
  rewrite He. reflexivity.
Qed.

(** The call on at least one counted value: the struct of the last round
    with the quotient of the 16-bit sum in [reading]; when the sum of the
    counted values fits 16 bits, that quotient is their mean. *)
Lemma oversampled_counted_mean (mem : nat -> list Z) (ref_byte sample_count : Z) :
  0 <= sample_count <= 255 ->
  let n := Z.to_nat sample_count in
  let kept := counted (decoded_readings mem ref_byte n) in
  kept <> [] ->
  sum kept < 65536 ->
  si8900_get_reading_oversampled mem ref_byte sample_count
  = Returns {| cmd_byte := cmd_byte (si8900_get_reading (mem (n - 1)%nat) ref_byte);
               inch := inch (si8900_get_reading (mem (n - 1)%nat) ref_byte);
               reading := mean kept |}.
Proof.
  intros Hsc n kept Hkept Hsum. unfold si8900_get_reading_oversampled.
  rewrite (u8_small sample_count) by lia. fold n.
  destruct (oversample_for_totals mem ref_byte n 0
              {| entries := 0; vals := 0; temp := None |}) as [He Hv];
    cbn [entries vals]; try lia.
  cbn zeta in He, Hv. cbn [entries vals] in He, Hv.
  change (counted (map (decoded ref_byte) (attempts_from mem 0 n))) with kept in He, Hv.
  assert (Hlen : (length kept <= n)%nat).
  { unfold kept. etransitivity; [apply length_counted|].
    unfold decoded_readings, attempts, attempts_from.
    rewrite !length_map, length_seq. reflexivity. }
  assert (Hpos : (0 < length kept)%nat).
  { destruct kept; [congruence|cbn; lia]. }
  assert (Hn : Z.of_nat n = sample_count) by (unfold n; apply Z2Nat.id; lia).
  assert (Hs0 : 0 <= sum kept) by apply sum_counted_nonneg.
  rewrite Z.add_0_l in He, Hv.
  rewrite u8_small in He by lia. rewrite u16_small in Hv by lia.
  rewrite He, Hv.
  assert (Hz : (Z.of_nat (length kept) =? 0) = false) by (apply Z.eqb_neq; lia).
  rewrite Hz.
  destruct n as [|n'] eqn:En; [lia|].
  rewrite oversample_for_temp.
  replace (S n' - 1)%nat with (0 + n')%nat by lia.
  rewrite Z.quot_div_nonneg by lia.
  unfold mean. rewrite u16_small; [reflexivity|].
  split.
  - apply Z.div_pos; lia.
  - apply Z.le_lt_trans with (sum kept); [|exact Hsum].
    apply Z.div_le_upper_bound; nia.
Qed.

Lemma in_attempts (mem : nat -> list Z) (n : nat) (b : list Z) :
  In b (attempts mem n) <-> exists i, (i < n)%nat /\ b = mem i.
Proof.
  unfold attempts, attempts_from. rewrite in_map_iff. split.
  - intros (i & Hb & Hi). apply in_seq in Hi. exists i. split; [lia|congruence].
  - intros (i & Hi & Hb). exists i. split; [congruence|]. apply in_seq. lia.
Qed.

Lemma counted_all (l : list Z) :
  (forall v, In v l -> v <> FAILED) -> counted l = l.
Proof.
  induction l as [|v l IH]; intros Hne; [reflexivity|].
  cbn [counted filter]. fold (counted l).
  assert (Hv : v <> FAILED) by (apply Hne; left; reflexivity).
  apply Z.eqb_neq in Hv. rewrite Hv. cbn [negb]. f_equal.
  apply IH. intros w Hw. apply Hne. right. exact Hw.
Qed.

(** Every attempt failing the echo check, the call divides by zero,
    whatever [sample_count] is. *)
Lemma oversampled_all_failed (mem : nat -> list Z) (ref_byte sample_count : Z) :
  0 <= sample_count <= 255 ->
  (forall i, (i < Z.to_nat sample_count)%nat -> echo_ok ref_byte (mem i) = false) ->
  si8900_get_reading_oversampled mem ref_byte sample_count = Undefined DivisionByZero.
Proof.
  intros Hsc Hall. apply oversampled_nothing_counted; [exact Hsc|].
  unfold decoded_readings. apply counted_all_failed.
  intros b Hin. apply in_attempts in Hin. destruct Hin as (i & Hi & ->).
  apply Hall. exact Hi.
Qed.

(** A struct that is returned carries the channel and the command byte
    decoded in the last round. *)
Lemma oversampled_returns_last (mem : nat -> list Z) (ref_byte sample_count : Z)
    (t : si8900_reading) :
  si8900_get_reading_oversampled mem ref_byte sample_count = Returns t ->
  let last := si8900_get_reading (mem (Z.to_nat (u8 sample_count) - 1)%nat) ref_byte in
  (0 < Z.to_nat (u8 sample_count))%nat /\ inch t = inch last /\ cmd_byte t = cmd_byte last.
Proof.
  unfold si8900_get_reading_oversampled.
  destruct (Z.to_nat (u8 sample_count)) as [|n'].
  - cbn. discriminate.
  - rewrite oversample_for_temp.
    destruct (entries _ =? 0); [discriminate|].
    intros H. injection H as <-. cbn [inch cmd_byte].
    replace (S n' - 1)%nat with (0 + n')%nat by lia.
    repeat split. lia.
Qed.

(** C3, at the failing input: one attempt or three, on a buffer whose
    echo byte 0x00 differs from the command byte, count nothing, and the
    call divides [vals] by [entries = 0] instead of returning [FAILED] in
    both fields. *)
Theorem oversampled_no_success_divides_by_zero :
  echo_ok GP_SINGLE_READ_0 [0x00; 0x83; 0x7E] = false
  /\ si8900_get_reading_oversampled (fun _ => [0x00; 0x83; 0x7E]) GP_SINGLE_READ_0 1
     = Undefined DivisionByZero
  /\ si8900_get_reading_oversampled (fun _ => [0x00; 0x83; 0x7E]) GP_SINGLE_READ_0 3
     = Undefined DivisionByZero
  /\ si8900_get_reading_oversampled (fun _ => [0x00; 0x83; 0x7E]) GP_SINGLE_READ_0 3
     <> Returns {| cmd_byte := 0x00; inch := FAILED; reading := FAILED |}.
Proof. repeat split. discriminate. Qed.

(** C5, at the failing inputs, every attempt passing the echo check.
    One attempt decoding 255 returns nothing: the guard
    [temp.reading != FAILED] takes the valid reading 255 for a failure,
    leaves it out, and the call divides by [entries = 0], where the mean
    is 255.  Two attempts decoding 255 and 1 return the reading 1, not the
    mean 128.  Sixty-five attempts decoding 1023 each return 14, not the
    mean 1023: their sum does not fit the 16 bits of [vals]. *)
Lemma oversampled_mean_not_exact :
  (let mem := fun _ : nat => response_packet 0xC2 0 255 in
   echo_ok 0xC2 (mem 0%nat) = true
   /\ decoded_readings mem 0xC2 1 = [255]
   /\ mean [255] = 255
   /\ si8900_get_reading_oversampled mem 0xC2 1 = Undefined DivisionByZero)
  /\ (let mem := refilled [response_packet 0xC2 0 255; response_packet 0xC2 0 1] in
      echo_ok 0xC2 (mem 0%nat) = true /\ echo_ok 0xC2 (mem 1%nat) = true
      /\ decoded_readings mem 0xC2 2 = [255; 1]
      /\ mean [255; 1] = 128
      /\ si8900_get_reading_oversampled mem 0xC2 2
         = Returns {| cmd_byte := 0xC2; inch := 0; reading := 1 |})
  /\ (let mem := fun _ : nat => response_packet 0xC2 0 1023 in
      echo_ok 0xC2 (mem 0%nat) = true
      /\ decoded_readings mem 0xC2 65 = repeat 1023 65
      /\ mean (repeat 1023 65) = 1023
      /\ si8900_get_reading_oversampled mem 0xC2 65
         = Returns {| cmd_byte := 0xC2; inch := 0; reading := 14 |}).
Proof. cbv zeta. repeat split; vm_compute; reflexivity. Qed.

(** Away from those inputs the mean is exact: for every
    [sample_count >= 1], if all [sample_count] attempts succeed, none of
    the decoded readings equals 0xFF and their sum is below 65536, the
    call returns a struct whose [reading] is the integer-truncating mean
    of the [sample_count] decoded readings. *)
Theorem oversampled_all_success_mean (mem : nat -> list Z) (ref_byte sample_count : Z) :
  1 <= sample_count <= 255 ->
  (forall i, (i < Z.to_nat sample_count)%nat -> echo_ok ref_byte (mem i) = true) ->
  (forall i, (i < Z.to_nat sample_count)%nat -> decoded ref_byte (mem i) <> FAILED) ->
  sum (decoded_readings mem ref_byte (Z.to_nat sample_count)) < 65536 ->
  exists t,
    si8900_get_reading_oversampled mem ref_byte sample_count = Returns t
    /\ reading t = sum (decoded_readings mem ref_byte (Z.to_nat sample_count)) / sample_count
    /\ Z.of_nat (length (decoded_readings mem ref_byte (Z.to_nat sample_count))) = sample_count.
Proof.
  intros Hsc Hok Hne Hsum.
  assert (Hkept : counted (decoded_readings mem ref_byte (Z.to_nat sample_count))
                  = decoded_readings mem ref_byte (Z.to_nat sample_count)).
  { apply counted_all. intros v Hv. unfold decoded_readings in Hv.
    apply in_map_iff in Hv. destruct Hv as (b & <- & Hb).
    apply in_attempts in Hb. destruct Hb as (i & Hi & ->). apply Hne. exact Hi. }
  assert (Hlen : Z.of_nat (length (decoded_readings mem ref_byte (Z.to_nat sample_count)))
                 = sample_count).
  { unfold decoded_readings, attempts, attempts_from.
    rewrite !length_map, length_seq. apply Z2Nat.id. lia. }
  eexists. split; [|split].
  - apply oversampled_counted_mean.
    + lia.
    + rewrite Hkept. intros Hnil. rewrite Hnil in Hlen. cbn in Hlen. lia.
    + rewrite Hkept. exact Hsum.
  - cbn [reading]. rewrite Hkept. unfold mean. rewrite Hlen. reflexivity.
  - exact Hlen.
Qed.

Lemma oversampled_all_success_mean_witness :
  exists t,
    si8900_get_reading_oversampled
      (refilled [response_packet 0xC2 0 10; response_packet 0xC2 0 11]) 0xC2 2 = Returns t
    /\ reading t
       = sum (decoded_readings
                (refilled [response_packet 0xC2 0 10; response_packet 0xC2 0 11]) 0xC2
                (Z.to_nat 2)) / 2
    /\ Z.of_nat (length (decoded_readings
                (refilled [response_packet 0xC2 0 10; response_packet 0xC2 0 11]) 0xC2
                (Z.to_nat 2))) = 2.
Proof.
  apply (oversampled_all_success_mean
           (refilled [response_packet 0xC2 0 10; response_packet 0xC2 0 11]) 0xC2 2).
  - lia.
  - intros i Hi. destruct i as [|[|i]]; [reflexivity|reflexivity|].
    change (Z.to_nat 2) with 2%nat in Hi. lia.
  - intros i Hi. destruct i as [|[|i]]; [discriminate|discriminate|].
    change (Z.to_nat 2) with 2%nat in Hi. lia.
  - reflexivity.
Defined.

(** C10, at the failing inputs.  With two attempts, the first passing
    the echo check and decoding 255, the last failing it, no struct is
    returned at all: the guard [temp.reading != FAILED] takes the only
    successful sample for a failure, leaves it out, and the call divides
    by [entries = 0], where a struct with [inch == FAILED] and the reading
    255 is due.  With a further successful attempt decoding 1 in between,
    the struct returned has [inch == FAILED] and the reading 1, not the
    mean 128 of the successful samples. *)
Lemma oversampled_last_failed_not_mean :
  (let mem := refilled [response_packet 0xC2 0 255; [0x00; 0x80; 0x00]] in
   echo_ok 0xC2 (mem 0%nat) = true /\ echo_ok 0xC2 (mem 1%nat) = false
   /\ successful_readings mem 0xC2 2 = [255]
   /\ si8900_get_reading_oversampled mem 0xC2 2 = Undefined DivisionByZero)
  /\ (let mem := refilled [response_packet 0xC2 0 255; response_packet 0xC2 0 1;
                           [0x00; 0x80; 0x00]] in
      echo_ok 0xC2 (mem 2%nat) = false
      /\ successful_readings mem 0xC2 3 = [255; 1]
      /\ mean [255; 1] = 128
      /\ si8900_get_reading_oversampled mem 0xC2 3
         = Returns {| cmd_byte := 0x00; inch := FAILED; reading := 1 |}).
Proof. cbv zeta. repeat split; vm_compute; reflexivity. Qed.

(** Away from those inputs: the [inch] field of a struct returned by
    [si8900_get_reading_oversampled] is always the one decoded on the
    final attempt, and for [sample_count >= 2], if the last attempt fails
    echo validation, at least one earlier attempt succeeds, no successful
    attempt decodes to 0xFF and the sum of the successful readings is
    below 65536, the call returns a struct with [inch == FAILED] whose
    [reading] is the integer-truncating mean of the successful samples. *)
Theorem oversampled_inch_of_last_attempt (mem : nat -> list Z) (ref_byte sample_count : Z) :
  0 <= sample_count <= 255 ->
  let n := Z.to_nat sample_count in
  (forall t,
      si8900_get_reading_oversampled mem ref_byte sample_count = Returns t ->
      inch t = inch (si8900_get_reading (mem (n - 1)%nat) ref_byte))
  /\ (2 <= sample_count ->
      echo_ok ref_byte (mem (n - 1)%nat) = false ->
      (exists i, (i < n - 1)%nat /\ echo_ok ref_byte (mem i) = true) ->
      (forall i, (i < n)%nat -> echo_ok ref_byte (mem i) = true ->
                 decoded ref_byte (mem i) <> FAILED) ->
      sum (successful_readings mem ref_byte n) < 65536 ->
      exists t,
        si8900_get_reading_oversampled mem ref_byte sample_count = Returns t
        /\ inch t = FAILED
        /\ reading t = mean (successful_readings mem ref_byte n)).
Proof.
  intros Hsc n. split.
  - intros t Ht. apply oversampled_returns_last in Ht. cbn zeta in Ht.
    rewrite (u8_small sample_count) in Ht by lia. apply Ht.
  - intros H2 Hlast (i & Hi & Hok) Hne Hsum.
    assert (Hkept : counted (decoded_readings mem ref_byte n)
                    = successful_readings mem ref_byte n).
    { unfold decoded_readings, successful_readings. apply counted_successful.
      intros b Hb. apply in_attempts in Hb. destruct Hb as (j & Hj & ->).
      apply Hne. exact Hj. }
    assert (Hsome : successful_readings mem ref_byte n <> []).
    { unfold successful_readings. intros Hnil.
      assert (Hin : In (mem i) (filter (echo_ok ref_byte) (attempts mem n))).
      { apply filter_In. split; [|exact Hok]. apply in_attempts. exists i. split; [lia|reflexivity]. }
      apply (in_map (decoded ref_byte)) in Hin. rewrite Hnil in Hin. exact Hin. }
    eexists. split; [|split].
    + apply oversampled_counted_mean.
      * exact Hsc.
      * fold n. rewrite Hkept. exact Hsome.
      * fold n. rewrite Hkept. exact Hsum.
    + cbn [inch]. fold n. unfold echo_ok in Hlast. apply Z.eqb_neq in Hlast.
      rewrite get_reading_mismatch by exact Hlast. reflexivity.
    + cbn [reading]. fold n. rewrite Hkept. reflexivity.
Qed.

Lemma oversampled_inch_of_last_attempt_witness :
  exists t,
    si8900_get_reading_oversampled
      (refilled [response_packet 0xC2 0 10; response_packet 0xC2 0 11; [0x00; 0x80; 0x00]])
      0xC2 3 = Returns t
    /\ inch t = FAILED
    /\ reading t
       = mean (successful_readings
                 (refilled [response_packet 0xC2 0 10; response_packet 0xC2 0 11;
                            [0x00; 0x80; 0x00]]) 0xC2 (Z.to_nat 3)).
Proof.
  assert (Hsc : 0 <= 3 <= 255) by lia.
  apply (proj2 (oversampled_inch_of_last_attempt
                  (refilled [response_packet 0xC2 0 10; response_packet 0xC2 0 11;
                             [0x00; 0x80; 0x00]]) 0xC2 3 Hsc)).
  - lia.
  - reflexivity.
  - exists 0%nat. split; [|reflexivity]. change (Z.to_nat 3) with 3%nat. simpl. lia.
  - intros i Hi Hok. change (Z.to_nat 3) with 3%nat in Hi.
    destruct i as [|[|[|i]]]; [discriminate|discriminate|discriminate|lia].
  - reflexivity.
Defined.

(** ** Auto-baud handshake *)

Lemma while_step (e : rx_event) (rx : list rx_event) (st : handshake) :
  Code_confirm st = 0 ->
  auto_baud_while (e :: rx) st = auto_baud_while rx (auto_baud_body st e).
Proof. intros Hc. cbn [auto_baud_while]. rewrite Hc, Z.land_0_r. reflexivity. Qed.

Lemma while_nil (st : handshake) :
  Code_confirm st = 0 -> auto_baud_while [] st = Polling st.
Proof. intros Hc. cbn [auto_baud_while]. rewrite Hc, Z.land_0_r. reflexivity. Qed.

Lemma while_exit (rx : list rx_event) (st : handshake) :
  Code_receive st = 1 -> Code_confirm st = 1 ->
  auto_baud_while rx st = Returned 0 st rx.
Proof. intros Hr Hc. destruct rx; cbn [auto_baud_while]; rewrite Hr, Hc; reflexivity. Qed.

(** A confirmation byte sets [Code_receive], and sets [Code_confirm]
    when [Code_receive] was set already. *)
Lemma body_confirm (st : handshake) (e : rx_event) :
  byte_event e -> is_confirm e = true ->
  Code_receive (auto_baud_body st e) = 1
  /\ Code_confirm (auto_baud_body st e)
     = (if Code_receive st =? 1 then 1 else Code_confirm st).
Proof.
  unfold byte_event, is_confirm, auto_baud_body. intros Hb Hc.
  rewrite (u8_small (rx_byte e)) by exact Hb.
  change CONFIRM with 0x55. rewrite Hc. split; reflexivity.
Qed.

Lemma body_first_confirm (st : handshake) (e : rx_event) :
  byte_event e -> is_confirm e = true ->
  Code_receive st = 0 -> Code_confirm st = 0 ->
  Code_receive (auto_baud_body st e) = 1 /\ Code_confirm (auto_baud_body st e) = 0.
Proof.
  intros Hb Hce Hr Hc. destruct (body_confirm st e Hb Hce) as [Hr' Hc'].
  rewrite Hr, Hc in Hc'. split; assumption.
Qed.

Lemma body_second_confirm (st : handshake) (e : rx_event) :
  byte_event e -> is_confirm e = true ->
  Code_receive st = 1 ->
  Code_receive (auto_baud_body st e) = 1 /\ Code_confirm (auto_baud_body st e) = 1.
Proof.
  intros Hb Hce Hr. destruct (body_confirm st e Hb Hce) as [Hr' Hc'].
  rewrite Hr in Hc'. split; assumption.
Qed.

(** Any other byte clears both. *)
Lemma body_other (st : handshake) (e : rx_event) :
  byte_event e -> is_confirm e = false ->
  Code_receive (auto_baud_body st e) = 0 /\ Code_confirm (auto_baud_body st e) = 0.
Proof.
  unfold byte_event, is_confirm, auto_baud_body. intros Hb Hc.
  rewrite (u8_small (rx_byte e)) by exact Hb.
  change CONFIRM with 0x55. rewrite Hc. split; reflexivity.
Qed.

(** The loop has been left after [rx] exactly when [rx] starts with a
    confirmation byte that follows one received before, or has two
    confirmation bytes in a row. *)
Lemma while_returned (rx : list rx_event) :
  Forall byte_event rx ->
  forall st, in_loop st ->
    has_returned (auto_baud_while rx st)
    = ((Code_receive st =? 1) && starts_with_confirm rx) || two_consecutive_confirms rx.
Proof.
  induction 1 as [|e rx He Hrx IH]; intros st [Hc Hr].
  - rewrite while_nil by exact Hc. cbn. rewrite andb_false_r. reflexivity.
  - rewrite while_step by exact Hc.
    cbn [starts_with_confirm two_consecutive_confirms].
    destruct (is_confirm e) eqn:Hce.
    + destruct Hr as [Hr|Hr].
      * destruct (body_first_confirm st e He Hce Hr Hc) as [Hr' Hc'].
        rewrite IH by (split; [exact Hc'|right; exact Hr']).
        rewrite Hr', Hr. reflexivity.
      * destruct (body_second_confirm st e He Hce Hr) as [Hr' Hc'].
        rewrite while_exit by assumption. rewrite Hr. reflexivity.
    + destruct (body_other st e He Hce) as [Hr' Hc'].
      rewrite IH by (split; [exact Hc'|left; exact Hr']).
      rewrite Hr'. cbn. rewrite andb_false_r. reflexivity.
Qed.

(** Where the loop is left: right after the second of the first two
    confirmation bytes in a row. *)
Lemma while_returned_at (rx : list rx_event) :
  Forall byte_event rx ->
  forall st ret st' pending,
    in_loop st ->
    auto_baud_while rx st = Returned ret st' pending ->
    ret = 0 /\ Code_receive st' = 1 /\ Code_confirm st' = 1
    /\ ((Code_receive st = 1 /\ exists e2, rx = e2 :: pending /\ is_confirm e2 = true)
        \/ (exists before e1 e2,
               rx = before ++ e1 :: e2 :: pending
               /\ is_confirm e1 = true /\ is_confirm e2 = true
               /\ two_consecutive_confirms (before ++ [e1]) = false
               /\ (Code_receive st = 1 -> starts_with_confirm (before ++ [e1]) = false))).
Proof.
  induction 1 as [|e rx He Hrx IH]; intros st ret st' pending [Hc Hr] Hrun.
  - rewrite while_nil in Hrun by exact Hc. discriminate.
  - rewrite while_step in Hrun by exact Hc.
    destruct (is_confirm e) eqn:Hce.
    + destruct Hr as [Hr|Hr].
      * destruct (body_first_confirm st e He Hce Hr Hc) as [Hr' Hc'].
        destruct (IH _ _ _ _ (conj Hc' (or_intror Hr')) Hrun)
          as (Hret & Hr1 & Hc1 & [(_ & e2 & Hrx2 & Hc2) | (before & e1 & e2 & Hrx2 & H1 & H2 & Hno & Hst)]);
          subst rx ret.
        -- repeat split; try assumption. right. exists [], e, e2.
           repeat split; try assumption.
           ++ cbn. rewrite andb_false_r. reflexivity.
           ++ intros Habs. rewrite Hr in Habs. discriminate.
        -- repeat split; try assumption. right. exists (e :: before), e1, e2.
           repeat split; try assumption.
           ++ cbn [app two_consecutive_confirms]. rewrite (Hst Hr'), Hno, andb_false_r.
              reflexivity.
           ++ intros Habs. rewrite Hr in Habs. discriminate.
      * destruct (body_second_confirm st e He Hce Hr) as [Hr' Hc'].
        rewrite while_exit in Hrun by assumption.
        injection Hrun as <- <- <-. repeat split; try assumption.
        left. split; [exact Hr|]. exists e. split; [reflexivity|exact Hce].
    + destruct (body_other st e He Hce) as [Hr' Hc'].
      destruct (IH _ _ _ _ (conj Hc' (or_introl Hr')) Hrun)
        as (Hret & Hr1 & Hc1 & [(Habs & _) | (before & e1 & e2 & Hrx2 & H1 & H2 & Hno & Hst)]).
      * rewrite Hr' in Habs. discriminate.
      * subst rx ret. repeat split; try assumption. right. exists (e :: before), e1, e2.
        repeat split; try assumption.
        -- cbn [app two_consecutive_confirms]. rewrite Hce, Hno. reflexivity.
        -- intros _. cbn [app starts_with_confirm]. exact Hce.
Qed.

(** The loop is left there. *)
Lemma while_returns_at (pending : list rx_event) (e1 e2 : rx_event) (before : list rx_event) :
  Forall byte_event before -> byte_event e1 -> byte_event e2 ->
  is_confirm e1 = true -> is_confirm e2 = true ->
  forall st,
    in_loop st ->
    two_consecutive_confirms (before ++ [e1]) = false ->
    (Code_receive st = 1 -> starts_with_confirm (before ++ [e1]) = false) ->
    exists st', auto_baud_while (before ++ e1 :: e2 :: pending) st = Returned 0 st' pending.
Proof.
  intros Hb Hb1 Hb2 H1 H2.
  induction Hb as [|b before Hbb Hbefore IH]; intros st [Hc Hr] Hno Hst.
  - cbn [app] in *.
    assert (Hr0 : Code_receive st = 0).
    { destruct Hr as [Hr|Hr]; [exact Hr|]. specialize (Hst Hr). cbn in Hst. congruence. }
    rewrite while_step by exact Hc.
    destruct (body_first_confirm st e1 Hb1 H1 Hr0 Hc) as [Hr' Hc'].
    rewrite while_step by exact Hc'.
    destruct (body_second_confirm (auto_baud_body st e1) e2 Hb2 H2 Hr') as [Hr'' Hc''].
    eexists. apply while_exit; assumption.
  - cbn [app two_consecutive_confirms] in *.
    apply orb_false_iff in Hno. destruct Hno as [Hpair Hno].
    rewrite while_step by exact Hc.
    destruct (is_confirm b) eqn:Hcb.
    + assert (Hr0 : Code_receive st = 0).
      { destruct Hr as [Hr|Hr]; [exact Hr|]. specialize (Hst Hr). cbn in Hst. congruence. }
      destruct (body_first_confirm st b Hbb Hcb Hr0 Hc) as [Hr' Hc'].
      apply IH; [split; [exact Hc'|right; exact Hr']|exact Hno|].
      intros _. cbn [andb] in Hpair. exact Hpair.
    + destruct (body_other st b Hbb Hcb) as [Hr' Hc'].
      apply IH; [split; [exact Hc'|left; exact Hr']|exact Hno|].
      intros Habs. rewrite Hr' in Habs. discriminate.
Qed.

Lemma is_confirm_iff (e : rx_event) : is_confirm e = true <-> rx_byte e = 0x55.
Proof. unfold is_confirm. apply Z.eqb_eq. Qed.

Lemma is_confirm_false_iff (e : rx_event) : is_confirm e = false <-> rx_byte e <> 0x55.
Proof. unfold is_confirm. apply Z.eqb_neq. Qed.

Lemma auto_baud_starts_in_loop :
  in_loop {| Code_receive := 0; Code_confirm := 0; hold_value := 0;
             transmitted := [CAL_BYTE] |}.
Proof. split; [reflexivity|left; reflexivity]. Qed.

Lemma has_returned_iff (p : progress) :
  has_returned p = true <-> exists ret st pending, p = Returned ret st pending.
Proof.
  destruct p as [ret st pending|st]; cbn; split.
  - intros _. exists ret, st, pending. reflexivity.
  - reflexivity.
  - discriminate.
  - intros (ret & st' & pending & H). discriminate.
Qed.

Lemma auto_baud_returned (rx : list rx_event) :
  Forall byte_event rx ->
  has_returned (si8900_auto_baud rx) = two_consecutive_confirms rx.
Proof.
  intros Hrx. unfold si8900_auto_baud.
  rewrite (while_returned rx Hrx _ auto_baud_starts_in_loop). reflexivity.
Qed.

Lemma auto_baud_returned_at (rx : list rx_event) (ret : Z) (st : handshake)
    (pending : list rx_event) :
  Forall byte_event rx ->
  si8900_auto_baud rx = Returned ret st pending ->
  ret = 0 /\ Code_receive st = 1 /\ Code_confirm st = 1
  /\ exists before e1 e2,
       rx = before ++ e1 :: e2 :: pending
       /\ rx_byte e1 = 0x55 /\ rx_byte e2 = 0x55
       /\ two_consecutive_confirms (before ++ [e1]) = false.
Proof.
  intros Hrx Hrun. unfold si8900_auto_baud in Hrun.
  destruct (while_returned_at rx Hrx _ _ _ _ auto_baud_starts_in_loop Hrun)
    as (Hret & Hr & Hc & [(Habs & _) | (before & e1 & e2 & Heq & H1 & H2 & Hno & _)]).
  - cbn in Habs. discriminate.
  - repeat split; try assumption.
    exists before, e1, e2. repeat split; try assumption; apply is_confirm_iff; assumption.
Qed.

(** Two confirmation bytes in a row among the events [k], ..., [k + n - 1]
    of a stream. *)
Lemma two_consecutive_confirms_stream (s : rx_stream) (n : nat) :
  forall k,
    two_consecutive_confirms (map s (seq k n)) = true
    <-> exists i, (k <= i)%nat /\ (S i < k + n)%nat
                  /\ is_confirm (s i) = true /\ is_confirm (s (S i)) = true.
Proof.
  induction n as [|n IH]; intros k.
  - cbn. split; [discriminate|]. intros (i & H1 & H2 & _). lia.
  - cbn [seq map two_consecutive_confirms]. rewrite orb_true_iff, andb_true_iff, IH.
    split.
    + intros [[Hk Hnext] | (i & H1 & H2 & H3 & H4)].
      * destruct n as [|n]; [discriminate|]. cbn [seq map starts_with_confirm] in Hnext.
        exists k. repeat split; try assumption; lia.
      * exists i. repeat split; try assumption; lia.
    + intros (i & H1 & H2 & H3 & H4).
      destruct (Nat.eq_dec i k) as [->|Hne].
      * left. split; [exact H3|].
        destruct n as [|n]; [lia|]. cbn [seq map starts_with_confirm]. exact H4.
      * right. exists i. repeat split; try assumption; lia.
Qed.

Lemma first_events_bytes (s : rx_stream) (n : nat) :
  (forall i, byte_event (s i)) -> Forall byte_event (first_events s n).
Proof.
  intros Hs. unfold first_events. apply Forall_forall. intros e He.
  apply in_map_iff in He. destruct He as (i & <- & _). apply Hs.
Qed.

(** C2: [si8900_auto_baud] returns success exactly when two consecutive
    received bytes both equal the confirmation byte 0x55, and it returns
    right after the first such pair.  A single 0x55 does not end the loop;
    any received byte other than 0x55 resets [Code_receive] and
    [Code_confirm] to zero; a confirm, non-confirm, confirm sequence does
    not report success. *)
Theorem auto_baud_needs_two_consecutive_confirms (rx : list rx_event) :
  Forall byte_event rx ->
  has_returned (si8900_auto_baud rx) = two_consecutive_confirms rx
  /\ (forall pending,
        (exists st, si8900_auto_baud rx = Returned 0 st pending)
        <-> (exists before e1 e2,
                rx = before ++ e1 :: e2 :: pending
                /\ rx_byte e1 = 0x55 /\ rx_byte e2 = 0x55
                /\ two_consecutive_confirms (before ++ [e1]) = false))
  /\ (forall ret st pending,
        si8900_auto_baud rx = Returned ret st pending ->
        ret = 0 /\ Code_receive st = 1 /\ Code_confirm st = 1)
  /\ (forall st e,
        byte_event e -> rx_byte e <> 0x55 ->
        Code_receive (auto_baud_body st e) = 0 /\ Code_confirm (auto_baud_body st e) = 0)
  /\ (exists st,
        si8900_auto_baud [received 0x55] = Polling st
        /\ Code_receive st = 1 /\ Code_confirm st = 0)
  /\ (forall x,
        0 <= x < 256 -> x <> 0x55 ->
        has_returned (si8900_auto_baud [received 0x55; received x; received 0x55]) = false).
Proof.
  intros Hrx. split; [|split; [|split; [|split; [|split]]]].
  - apply auto_baud_returned. exact Hrx.
  - intros pending. split.
    + intros (st & Hrun). apply (auto_baud_returned_at rx 0 st pending Hrx Hrun).
    + intros (before & e1 & e2 & -> & H1 & H2 & Hno).
      apply Forall_app in Hrx. destruct Hrx as [Hb Hrest].
      inversion Hrest as [|? ? Hb1 Hrest']; subst.
      inversion Hrest' as [|? ? Hb2 _]; subst.
      apply is_confirm_iff in H1, H2. unfold si8900_auto_baud.
      apply (while_returns_at pending e1 e2 before Hb Hb1 Hb2 H1 H2 _
               auto_baud_starts_in_loop Hno).
      cbn. discriminate.
  - intros ret st pending Hrun.
    destruct (auto_baud_returned_at rx ret st pending Hrx Hrun) as (H0 & H1 & H2 & _).
    repeat split; assumption.
  - intros st e Hb Hne. apply body_other; [exact Hb|]. apply is_confirm_false_iff. exact Hne.
  - eexists. split; [reflexivity|]. split; reflexivity.
  - intros x Hx Hne. rewrite auto_baud_returned.
    + cbn [two_consecutive_confirms starts_with_confirm].
      unfold is_confirm, received; cbn [rx_byte].
      apply Z.eqb_neq in Hne. rewrite Hne. reflexivity.
    + repeat constructor; unfold byte_event; cbn; lia.
Qed.

Lemma auto_baud_needs_two_consecutive_confirms_witness :
  has_returned (si8900_auto_baud (map received [0x00; 0x01; 0x55; 0x55]))
  = two_consecutive_confirms (map received [0x00; 0x01; 0x55; 0x55])
  /\ exists st, si8900_auto_baud (map received [0x00; 0x01; 0x55; 0x55]) = Returned 0 st [].
Proof.
  assert (Hrx : Forall byte_event (map received [0x00; 0x01; 0x55; 0x55])).
  { repeat constructor; unfold byte_event; simpl; lia. }
  split.
  - apply (proj1 (auto_baud_needs_two_consecutive_confirms _ Hrx)).
  - apply (proj2 (proj1 (proj2 (auto_baud_needs_two_consecutive_confirms _ Hrx)) [])).
    exists (map received [0x00; 0x01]), (received 0x55), (received 0x55).
    repeat split.
Defined.

(** C9: [si8900_auto_baud] has no timeout.  On a stream of received bytes
    it returns, and then returns 0, if and only if the stream has two
    consecutive confirmation bytes 0x55 somewhere; on a stream that never
    has two consecutive 0x55 bytes it never returns. *)
Theorem auto_baud_returns_iff_stream_confirms_twice (s : rx_stream) :
  (forall i, byte_event (s i)) ->
  (returns_on s 0 <-> exists i, rx_byte (s i) = 0x55 /\ rx_byte (s (S i)) = 0x55)
  /\ (forall ret, returns_on s ret -> ret = 0)
  /\ ((forall i, ~ (rx_byte (s i) = 0x55 /\ rx_byte (s (S i)) = 0x55))
      <-> never_returns_on s).
Proof.
  intros Hs.
  assert (Hret : forall n,
            has_returned (si8900_auto_baud (first_events s n)) = true
            <-> exists i, (S i < n)%nat /\ rx_byte (s i) = 0x55 /\ rx_byte (s (S i)) = 0x55).
  { intros n. rewrite auto_baud_returned by (apply first_events_bytes; exact Hs).
    unfold first_events. rewrite two_consecutive_confirms_stream. split.
    - intros (i & _ & Hi & H1 & H2). exists i.
      repeat split; [lia|apply is_confirm_iff; exact H1|apply is_confirm_iff; exact H2].
    - intros (i & Hi & H1 & H2). exists i.
      repeat split; [lia|lia|apply is_confirm_iff; exact H1|apply is_confirm_iff; exact H2]. }
  assert (Hzero : forall ret, returns_on s ret -> ret = 0).
  { intros ret (n & st & pending & Hrun).
    apply (auto_baud_returned_at _ ret st pending (first_events_bytes s n Hs) Hrun). }
  split; [|split].
  - split.
    + intros (n & st & pending & Hrun).
      assert (Hh : has_returned (si8900_auto_baud (first_events s n)) = true)
        by (rewrite Hrun; reflexivity).
      apply Hret in Hh. destruct Hh as (i & _ & H1 & H2). exists i. split; assumption.
    + intros (i & H1 & H2).
      assert (Hh : has_returned (si8900_auto_baud (first_events s (S (S i)))) = true).
      { apply Hret. exists i. repeat split; [lia|exact H1|exact H2]. }
      apply has_returned_iff in Hh. destruct Hh as (ret & st & pending & Hrun).
      assert (Hr0 : ret = 0) by (apply Hzero; exists (S (S i)), st, pending; exact Hrun).
      subst ret. exists (S (S i)), st, pending. exact Hrun.
  - exact Hzero.
  - split.
    + intros Hnone n.
      destruct (has_returned (si8900_auto_baud (first_events s n))) eqn:Hh; [|reflexivity].
      apply Hret in Hh. destruct Hh as (i & _ & H1 & H2).
      exfalso. apply (Hnone i). split; assumption.
    + intros Hnever i [H1 H2].
      assert (Hh : has_returned (si8900_auto_baud (first_events s (S (S i)))) = true).
      { apply Hret. exists i. repeat split; [lia|exact H1|exact H2]. }
      rewrite (Hnever (S (S i))) in Hh. discriminate.
Qed.

Lemma auto_baud_returns_iff_stream_confirms_twice_witness :
  returns_on (fun _ => received 0x55) 0
  /\ never_returns_on (fun _ => received 0xAA).
Proof.
  assert (H55 : forall i : nat, byte_event ((fun _ => received 0x55) i)).
  { intros i. unfold byte_event. simpl. lia. }
  assert (HAA : forall i : nat, byte_event ((fun _ => received 0xAA) i)).
  { intros i. unfold byte_event. simpl. lia. }
  split.
  - apply (proj1 (auto_baud_returns_iff_stream_confirms_twice _ H55)).
    exists 0%nat. split; reflexivity.
  - apply (proj2 (proj2 (auto_baud_returns_iff_stream_confirms_twice _ HAA))).
    intros i [H _]. simpl in H. discriminate H.
Defined.

(** * Further properties of the code *)

(** ** Command bytes *)

(** The header's two ways of combining the four fields, [|] and [+], give
    the same command byte for every selection, in whatever order the
    fields are combined; the selection can be read back from the byte, so
    different selections give different bytes. *)
Theorem command_fields_combine (p : pga_field) (m : mode_field) (r : ref_field)
    (c : inch_field) :
  cmd_byte_sum p m r c = cmd_byte_of p m r c
  /\ u8 (Z.lor (inch_bits c) (Z.lor (ref_bits r) (Z.lor (mode_bits m) (pga_bits p))))
     = cmd_byte_of p m r c
  /\ pga_of (cmd_byte_of p m r c) = p
  /\ mode_of (cmd_byte_of p m r c) = m
  /\ ref_of (cmd_byte_of p m r c) = r
  /\ inch_of (cmd_byte_of p m r c) = c.
Proof. destruct p, m, r, c; repeat split. Qed.

(** No command byte assembled from the four fields is one of the reserved
    bytes [CAL_BYTE], [CONFIRM], [FAILED], [HAND_SHAKED]: every command
    byte lies in 0xC0..0xEB. *)
Theorem command_byte_not_reserved (p : pga_field) (m : mode_field) (r : ref_field)
    (c : inch_field) :
  0xC0 <= cmd_byte_of p m r c <= 0xEB
  /\ cmd_byte_of p m r c <> CAL_BYTE
  /\ cmd_byte_of p m r c <> CONFIRM
  /\ cmd_byte_of p m r c <> FAILED
  /\ cmd_byte_of p m r c <> HAND_SHAKED.
Proof. destruct p, m, r, c; repeat split; discriminate. Qed.

(** ** Decoding one packet *)

(** [si8900_get_reading] always copies the first byte of the buffer to
    [cmd_byte], and the documented failure test on [inch] is exact: [inch]
    is [FAILED] if and only if the first byte differs from [ref_byte]. *)
Theorem get_reading_inch_failed_iff (buffer : list Z) (ref_byte : Z) :
  cmd_byte (si8900_get_reading buffer ref_byte) = deref buffer 0
  /\ (inch (si8900_get_reading buffer ref_byte) = FAILED <-> deref buffer 0 <> ref_byte).
Proof.
  destruct (Z.eq_dec (deref buffer 0) ref_byte) as [He|Hne].
  - rewrite get_reading_match by exact He. cbn [cmd_byte inch]. split; [congruence|].
    pose proof (GET_INCH_range (deref buffer 1)) as Hi.
    split.
    + intros H. change FAILED with 255 in H. lia.
    + intros H. contradiction.
  - rewrite get_reading_mismatch by exact Hne. cbn [cmd_byte inch]. split; [reflexivity|].
    split; intros _; [exact Hne|reflexivity].
Qed.

(** OR-ing a value below [2 ^ n] under a value shifted left by [n] adds
    the two. *)
Lemma lor_shiftl_low (a b n : Z) :
  0 <= n -> 0 <= b < 2 ^ n -> Z.lor (Z.shiftl a n) b = a * 2 ^ n + b.
Proof.
  intros Hn Hb. rewrite <- Z.shiftl_mul_pow2 by exact Hn.
  assert (Hland : Z.land (Z.shiftl a n) b = 0); [|rewrite <- Z.lxor_lor, <- Z.add_nocarry_lxor by exact Hland; reflexivity].
  apply Z.bits_inj'. intros i Hi. rewrite Z.land_spec, Z.bits_0.
  destruct (Z.lt_ge_cases i n) as [Hlt|Hge].
  - rewrite Z.shiftl_spec_low by exact Hlt. reflexivity.
  - rewrite (testbit_above b n i) by lia. apply andb_false_r.
Qed.

(** On an echo match, for data bytes with bit 7 of the second byte clear
    as the wire format has it: the channel is bits 5:4 of the first data
    byte, and the reading is the low five bits of the first data byte
    followed by bits 6:1 of the second.  Bits 7 and 6 of the first data
    byte and bit 0 of the second are not looked at. *)
Theorem get_reading_fields (b0 b1 b2 : Z) :
  0 <= b1 < 256 -> 0 <= b2 < 128 ->
  inch (si8900_get_reading [b0; b1; b2] b0) = (b1 / 16) mod 4
  /\ reading (si8900_get_reading [b0; b1; b2] b0) = (b1 mod 32) * 64 + b2 / 2.
Proof.
  intros H1 H2. rewrite get_reading_match by reflexivity. cbn [inch reading deref nth].
  rewrite GET_INCH_bits, GET_READING_bits. unfold PACKET_JOIN.
  rewrite (u16_small b1) by lia.
  rewrite (lor_shiftl_low b1 b2 7) by (change (2 ^ 7) with 128; lia).
  change (2 ^ 7) with 128. rewrite (u16_small (b1 * 128 + b2)) by lia.
  rewrite !Z.shiftr_div_pow2 by lia. change (2 ^ 4) with 16. change (2 ^ 1) with 2.
  split; [reflexivity|].
  Z.div_mod_to_equations. lia.
Qed.

Lemma get_reading_fields_witness :
  inch (si8900_get_reading [0xE2; 0xAF; 0x7E] 0xE2) = (0xAF / 16) mod 4
  /\ reading (si8900_get_reading [0xE2; 0xAF; 0x7E] 0xE2) = (0xAF mod 32) * 64 + 0x7E / 2.
Proof. apply (get_reading_fields 0xE2 0xAF 0x7E); lia. Defined.

(** The round trip of the wire format as the code has it: a packet built
    for channel 0 or 2 and a reading of 0..1023 decodes to that channel and
    that reading; a packet built for channel 1 decodes to channel 1 and to
    the reading plus 1024. *)
Theorem round_trip_channels (cmd r : Z) :
  0 <= r <= 1023 ->
  si8900_get_reading (response_packet cmd 0 r) cmd
  = {| cmd_byte := cmd; inch := 0; reading := r |}
  /\ si8900_get_reading (response_packet cmd 2 r) cmd
     = {| cmd_byte := cmd; inch := 2; reading := r |}
  /\ si8900_get_reading (response_packet cmd 1 r) cmd
     = {| cmd_byte := cmd; inch := 1; reading := r + 1024 |}.
Proof.
  intros Hr.
  assert (H : forall c, 0 <= c <= 2 ->
            si8900_get_reading (response_packet cmd c r) cmd
            = {| cmd_byte := cmd; inch := c;
                 reading := r + (if c =? 1 then 1024 else 0) |}).
  { intros c Hc. destruct (round_trip_by_channel cmd c r Hc Hr) as [Hi Hv].
    rewrite get_reading_match in Hi, Hv |- * by reflexivity.
    cbn [inch reading] in Hi, Hv. rewrite Hi, Hv. reflexivity. }
  rewrite !H by lia. cbn [Z.eqb Pos.eqb]. rewrite Z.add_0_r. repeat split.
Qed.

Lemma round_trip_channels_witness :
  si8900_get_reading (response_packet 0xC2 0 1023) 0xC2
  = {| cmd_byte := 0xC2; inch := 0; reading := 1023 |}
  /\ si8900_get_reading (response_packet 0xC2 2 1023) 0xC2
     = {| cmd_byte := 0xC2; inch := 2; reading := 1023 |}
  /\ si8900_get_reading (response_packet 0xC2 1 1023) 0xC2
     = {| cmd_byte := 0xC2; inch := 1; reading := 1023 + 1024 |}.
Proof. apply (round_trip_channels 0xC2 1023). lia. Defined.

(** ** Oversampling *)

Lemma sum_counted_le (ref_byte : Z) (l : list (list Z)) :
  sum (counted (map (decoded ref_byte) l))
  <= 2047 * Z.of_nat (length (counted (map (decoded ref_byte) l))).
Proof.
  induction l as [|b l IH]; cbn [map counted filter sum fold_right length]; [lia|].
  fold (counted (map (decoded ref_byte) l)).
  destruct (negb (decoded ref_byte b =? FAILED)); [|exact IH].
  cbn [sum fold_right length]. fold (sum (counted (map (decoded ref_byte) l))).
  pose proof (decoded_range ref_byte b). lia.
Qed.

(** The call on at least one counted value, whatever their sum: the
    struct of the last round, with the quotient of the sum as it is left
    in the 16 bits of [vals] by the number of counted values. *)
Lemma oversampled_counted_wrapped (mem : nat -> list Z) (ref_byte sample_count : Z) :
  0 <= sample_count <= 255 ->
  let n := Z.to_nat sample_count in
  let kept := counted (decoded_readings mem ref_byte n) in
  kept <> [] ->
  si8900_get_reading_oversampled mem ref_byte sample_count
  = Returns {| cmd_byte := cmd_byte (si8900_get_reading (mem (n - 1)%nat) ref_byte);
               inch := inch (si8900_get_reading (mem (n - 1)%nat) ref_byte);
               reading := (sum kept mod 65536) / Z.of_nat (length kept) |}.
Proof.
  intros Hsc n kept Hkept. unfold si8900_get_reading_oversampled.
  rewrite (u8_small sample_count) by lia. fold n.
  destruct (oversample_for_totals mem ref_byte n 0
              {| entries := 0; vals := 0; temp := None |}) as [He Hv];
    cbn [entries vals]; try lia.
  cbn zeta in He, Hv. cbn [entries vals] in He, Hv.
  change (counted (map (decoded ref_byte) (attempts_from mem 0 n))) with kept in He, Hv.
  assert (Hlen : (length kept <= n)%nat).
  { unfold kept. etransitivity; [apply length_counted|].
    unfold decoded_readings, attempts, attempts_from.
    rewrite !length_map, length_seq. reflexivity. }
  assert (Hpos : (0 < length kept)%nat).
  { destruct kept; [congruence|cbn; lia]. }
  assert (Hn : Z.of_nat n = sample_count) by (unfold n; apply Z2Nat.id; lia).
  rewrite Z.add_0_l in He, Hv.
  rewrite u8_small in He by lia.
  rewrite He, Hv.
  assert (Hz : (Z.of_nat (length kept) =? 0) = false) by (apply Z.eqb_neq; lia).
  rewrite Hz.
  destruct n as [|n'] eqn:En; [lia|].
  rewrite oversample_for_temp.
  replace (S n' - 1)%nat with (0 + n')%nat by lia.
  pose proof (u16_range (sum kept)) as Hu.
  rewrite Z.quot_div_nonneg by lia.
  unfold u16 at 2. rewrite u16_small; [reflexivity|].
  fold (u16 (sum kept)).
  split.
  - apply Z.div_pos; lia.
  - apply Z.le_lt_trans with (u16 (sum kept)); [|lia].
    apply Z.div_le_upper_bound; nia.
Qed.

(** [si8900_get_reading_oversampled] returns a struct exactly when at
    least one of its [sample_count] attempts decodes to a reading other
    than 0xFF; otherwise, and always for [sample_count = 0], it divides by
    zero.  It never returns with [temp] unassigned. *)
Theorem oversampled_returns_iff_counted (mem : nat -> list Z) (ref_byte sample_count : Z) :
  0 <= sample_count <= 255 ->
  (si8900_get_reading_oversampled mem ref_byte sample_count = Undefined DivisionByZero
   <-> forall i, (i < Z.to_nat sample_count)%nat -> decoded ref_byte (mem i) = FAILED)
  /\ ((exists t, si8900_get_reading_oversampled mem ref_byte sample_count = Returns t)
      <-> exists i, (i < Z.to_nat sample_count)%nat /\ decoded ref_byte (mem i) <> FAILED)
  /\ (sample_count = 0 ->
      si8900_get_reading_oversampled mem ref_byte sample_count = Undefined DivisionByZero)
  /\ si8900_get_reading_oversampled mem ref_byte sample_count <> Undefined IndeterminateValue.
Proof.
  intros Hsc.
  set (n := Z.to_nat sample_count).
  assert (Hnil : counted (decoded_readings mem ref_byte n) = []
                 <-> forall i, (i < n)%nat -> decoded ref_byte (mem i) = FAILED).
  { unfold counted, decoded_readings. split.
    - intros Hnone i Hi.
      destruct (Z.eq_dec (decoded ref_byte (mem i)) FAILED) as [He|Hne]; [exact He|].
      exfalso.
      assert (Hin : In (decoded ref_byte (mem i))
                       (filter (fun v => negb (v =? FAILED))
                          (map (decoded ref_byte) (attempts mem n)))).
      { apply filter_In. split.
        - apply in_map. apply in_attempts. exists i. split; [exact Hi|reflexivity].
        - apply Z.eqb_neq in Hne. rewrite Hne. reflexivity. }
      rewrite Hnone in Hin. exact Hin.
    - intros Hall.
      destruct (filter _ _) as [|v rest] eqn:Hf; [reflexivity|].
      exfalso.
      assert (Hin : In v (filter (fun v => negb (v =? FAILED))
                            (map (decoded ref_byte) (attempts mem n)))).
      { rewrite Hf. left. reflexivity. }
      apply filter_In in Hin. destruct Hin as [Hin Hv].
      apply in_map_iff in Hin. destruct Hin as (b & <- & Hb).
      apply in_attempts in Hb. destruct Hb as (i & Hi & ->).
      rewrite (Hall i Hi), Z.eqb_refl in Hv. discriminate. }
  assert (Hcases : counted (decoded_readings mem ref_byte n) = []
                   /\ si8900_get_reading_oversampled mem ref_byte sample_count
                      = Undefined DivisionByZero
                   \/ counted (decoded_readings mem ref_byte n) <> []
                      /\ exists t, si8900_get_reading_oversampled mem ref_byte sample_count
                                   = Returns t).
  { destruct (counted (decoded_readings mem ref_byte n)) as [|v rest] eqn:Hk.
    - left. split; [reflexivity|]. apply oversampled_nothing_counted; assumption.
    - right. split; [discriminate|]. eexists.
      apply oversampled_counted_wrapped; [exact Hsc|]. fold n. rewrite Hk. discriminate. }
  split; [|split; [|split]].
  - destruct Hcases as [[Hk Hrun] | [Hk (t & Hrun)]]; rewrite Hrun.
    + split; [intros _; apply Hnil; exact Hk|reflexivity].
    + split; [discriminate|]. intros Hall. exfalso. apply Hk. apply Hnil. exact Hall.
  - destruct Hcases as [[Hk Hrun] | [Hk (t & Hrun)]]; rewrite Hrun.
    + split.
      * intros (t & Ht). discriminate.
      * intros (i & Hi & Hne). exfalso. apply Hne. apply (proj1 Hnil Hk). exact Hi.
    + split; [|intros _; exists t; reflexivity].
      intros _.
      assert (Hex : ~ forall i, (i < n)%nat -> decoded ref_byte (mem i) = FAILED).
      { intros Hall. apply Hk. apply Hnil. exact Hall. }
      clear - Hex. induction n as [|m IH].
      * exfalso. apply Hex. intros i Hi. lia.
      * destruct (Z.eq_dec (decoded ref_byte (mem m)) FAILED) as [He|Hne].
        -- destruct IH as (i & Hi & Hd).
           ++ intros Hall. apply Hex. intros i Hi.
              destruct (Nat.eq_dec i m) as [->|Hne]; [exact He|]. apply Hall. lia.
           ++ exists i. split; [lia|exact Hd].
        -- exists m. split; [lia|exact Hne].
  - intros ->. reflexivity.
  - destruct Hcases as [[_ Hrun] | [_ (t & Hrun)]]; rewrite Hrun; discriminate.
Qed.

Lemma oversampled_returns_iff_counted_witness :
  si8900_get_reading_oversampled (fun _ => response_packet 0xC2 0 255) 0xC2 4
  = Undefined DivisionByZero.
Proof.
  assert (Hsc : 0 <= 4 <= 255) by lia.
  apply (proj1 (oversampled_returns_iff_counted
                  (fun _ => response_packet 0xC2 0 255) 0xC2 4 Hsc)).
  intros i _. reflexivity.
Defined.

(** When at least one attempt decodes to a reading other than 0xFF, the
    struct returned has the command byte and the channel decoded in the
    last attempt, and its [reading] is the sum of the decoded readings
    other than 0xFF, reduced modulo 65536, divided by their number. *)
Theorem oversampled_reading_wraps (mem : nat -> list Z) (ref_byte sample_count : Z) :
  0 <= sample_count <= 255 ->
  counted (decoded_readings mem ref_byte (Z.to_nat sample_count)) <> [] ->
  si8900_get_reading_oversampled mem ref_byte sample_count
  = Returns
      {| cmd_byte := deref (mem (Z.to_nat sample_count - 1)%nat) 0;
         inch := inch (si8900_get_reading (mem (Z.to_nat sample_count - 1)%nat) ref_byte);
         reading :=
           (sum (counted (decoded_readings mem ref_byte (Z.to_nat sample_count))) mod 65536)
           / Z.of_nat (length (counted (decoded_readings mem ref_byte
                                          (Z.to_nat sample_count)))) |}.
Proof.
  intros Hsc Hkept.
  rewrite (oversampled_counted_wrapped mem ref_byte sample_count Hsc Hkept).
  do 2 f_equal. unfold si8900_get_reading.
  destruct (deref _ 0 =? ref_byte); reflexivity.
Qed.

Lemma oversampled_reading_wraps_witness :
  si8900_get_reading_oversampled (fun _ => response_packet 0xC2 0 1023) 0xC2 65
  = Returns {| cmd_byte := 0xC2; inch := 0; reading := 14 |}.
Proof.
  assert (Hsc : 0 <= 65 <= 255) by lia.
  assert (Hkept : counted (decoded_readings (fun _ => response_packet 0xC2 0 1023) 0xC2
                             (Z.to_nat 65)) <> []) by (vm_compute; discriminate).
  rewrite (oversampled_reading_wraps (fun _ => response_packet 0xC2 0 1023) 0xC2 65 Hsc Hkept).
  vm_compute. reflexivity.
Defined.

(** With at most 32 attempts the sum cannot leave the 16 bits of [vals]
    (a decoded reading is at most 2047): the [reading] returned is the
    integer mean of the decoded readings other than 0xFF. *)
Theorem oversampled_exact_up_to_32 (mem : nat -> list Z) (ref_byte sample_count : Z) :
  0 <= sample_count <= 32 ->
  counted (decoded_readings mem ref_byte (Z.to_nat sample_count)) <> [] ->
  exists t,
    si8900_get_reading_oversampled mem ref_byte sample_count = Returns t
    /\ reading t = mean (counted (decoded_readings mem ref_byte (Z.to_nat sample_count))).
Proof.
  intros Hsc Hkept. eexists. split.
  - apply oversampled_counted_mean; [lia|exact Hkept|].
    pose proof (sum_counted_le ref_byte (attempts mem (Z.to_nat sample_count))) as Hle.
    fold (decoded_readings mem ref_byte (Z.to_nat sample_count)) in Hle.
    assert (Hlen : (length (counted (decoded_readings mem ref_byte (Z.to_nat sample_count)))
                    <= Z.to_nat sample_count)%nat).
    { etransitivity; [apply length_counted|].
      unfold decoded_readings, attempts, attempts_from.
      rewrite !length_map, length_seq. reflexivity. }
    lia.
  - reflexivity.
Qed.

Lemma oversampled_exact_up_to_32_witness :
  exists t,
    si8900_get_reading_oversampled
      (refilled [response_packet 0xC2 0 100; response_packet 0xC2 0 101;
                 response_packet 0xC2 0 102]) 0xC2 3 = Returns t
    /\ reading t
       = mean (counted (decoded_readings
                          (refilled [response_packet 0xC2 0 100; response_packet 0xC2 0 101;
                                     response_packet 0xC2 0 102]) 0xC2 (Z.to_nat 3))).
Proof.
  apply (oversampled_exact_up_to_32
           (refilled [response_packet 0xC2 0 100; response_packet 0xC2 0 101;
                      response_packet 0xC2 0 102]) 0xC2 3).
  - lia.
  - vm_compute. discriminate.
Defined.

Lemma sum_all_equal (v : Z) (l : list Z) :
  (forall x, In x l -> x = v) -> sum l = Z.of_nat (length l) * v.
Proof.
  induction l as [|x l IH]; intros Hall; [reflexivity|].
  cbn [sum fold_right length]. fold (sum l).
  rewrite IH by (intros y Hy; apply Hall; right; exact Hy).
  rewrite (Hall x) by (left; reflexivity). lia.
Qed.

(** On a buffer that is not refilled between the attempts, passes the
    echo check and decodes to a reading other than 0xFF, oversampling with
    1 to 32 attempts returns what a single [si8900_get_reading] returns. *)
Theorem oversampled_unchanged_buffer (buffer : list Z) (ref_byte sample_count : Z) :
  1 <= sample_count <= 32 ->
  deref buffer 0 = ref_byte ->
  decoded ref_byte buffer <> FAILED ->
  si8900_get_reading_oversampled (fun _ => buffer) ref_byte sample_count
  = Returns (si8900_get_reading buffer ref_byte).
Proof.
  intros Hsc Hecho Hne.
  set (n := Z.to_nat sample_count).
  assert (Hall : forall x, In x (decoded_readings (fun _ => buffer) ref_byte n) ->
                           x = decoded ref_byte buffer).
  { intros x Hx. unfold decoded_readings in Hx. apply in_map_iff in Hx.
    destruct Hx as (b & <- & Hb). apply in_attempts in Hb.
    destruct Hb as (i & _ & ->). reflexivity. }
  assert (Hkept : counted (decoded_readings (fun _ => buffer) ref_byte n)
                  = decoded_readings (fun _ => buffer) ref_byte n).
  { apply counted_all. intros x Hx. rewrite (Hall x Hx). exact Hne. }
  assert (Hlen : Z.of_nat (length (decoded_readings (fun _ => buffer) ref_byte n))
                 = sample_count).
  { unfold decoded_readings, attempts, attempts_from.
    rewrite !length_map, length_seq. unfold n. apply Z2Nat.id. lia. }
  pose proof (decoded_range ref_byte buffer) as Hrange.
  rewrite oversampled_counted_mean.
  - fold n. rewrite Hkept. unfold mean. rewrite (sum_all_equal _ _ Hall), Hlen.
    rewrite Z.mul_comm, Z.div_mul by lia.
    unfold decoded. destruct (si8900_get_reading buffer ref_byte). reflexivity.
  - lia.
  - fold n. rewrite Hkept. intros Hnil. rewrite Hnil in Hlen. cbn in Hlen. lia.
  - fold n. rewrite Hkept, (sum_all_equal _ _ Hall), Hlen. nia.
Qed.

Lemma oversampled_unchanged_buffer_witness :
  si8900_get_reading_oversampled (fun _ => [0xE2; 0xAF; 0x7E]) 0xE2 32
  = Returns (si8900_get_reading [0xE2; 0xAF; 0x7E] 0xE2).
Proof.
  apply (oversampled_unchanged_buffer [0xE2; 0xAF; 0x7E] 0xE2 32).
  - lia.
  - reflexivity.
  - vm_compute. discriminate.
Defined.

(** Whatever the attempts hold, a struct returned by
    [si8900_get_reading_oversampled] has a [reading] in 0..2047 and an
    [inch] that is 0..3 or [FAILED]. *)
Theorem oversampled_result_bounds (mem : nat -> list Z) (ref_byte sample_count : Z)
    (t : si8900_reading) :
  0 <= sample_count <= 255 ->
  si8900_get_reading_oversampled mem ref_byte sample_count = Returns t ->
  0 <= reading t <= 2047 /\ (0 <= inch t <= 3 \/ inch t = FAILED).
Proof.
  intros Hsc Hrun.
  set (n := Z.to_nat sample_count).
  destruct (counted (decoded_readings mem ref_byte n)) as [|v rest] eqn:Hk.
  - rewrite oversampled_nothing_counted in Hrun by assumption. discriminate.
  - assert (Hkept : counted (decoded_readings mem ref_byte n) <> [])
      by (rewrite Hk; discriminate).
    rewrite (oversampled_counted_wrapped mem ref_byte sample_count Hsc Hkept) in Hrun.
    injection Hrun as <-. cbn [reading inch]. fold n.
    pose proof (sum_counted_le ref_byte (attempts mem n)) as Hle.
    pose proof (sum_counted_nonneg ref_byte (attempts mem n)) as H0.
    fold (decoded_readings mem ref_byte n) in Hle, H0.
    set (kept := counted (decoded_readings mem ref_byte n)) in *.
    assert (Hpos : 0 < Z.of_nat (length kept)).
    { destruct kept; [congruence|cbn [length]; lia]. }
    pose proof (Z.mod_pos_bound (sum kept) 65536 ltac:(lia)) as Hm.
    split.
    + split; [apply Z.div_pos; lia|].
      destruct (Z.lt_ge_cases (sum kept) 65536) as [Hlt|Hge].
      * rewrite Z.mod_small by lia.
        apply Z.div_le_upper_bound; [lia|]. lia.
      * apply Z.div_le_upper_bound; [lia|]. nia.
    + unfold si8900_get_reading.
      destruct (deref _ 0 =? ref_byte); cbn [inch].
      * left. apply GET_INCH_range.
      * right. reflexivity.
Qed.

Lemma oversampled_result_bounds_witness :
  0 <= reading {| cmd_byte := 0xC2; inch := 0; reading := 14 |} <= 2047
  /\ (0 <= inch {| cmd_byte := 0xC2; inch := 0; reading := 14 |} <= 3
      \/ inch {| cmd_byte := 0xC2; inch := 0; reading := 14 |} = FAILED).
Proof.
  assert (Hsc : 0 <= 65 <= 255) by lia.
  apply (oversampled_result_bounds (fun _ => response_packet 0xC2 0 1023) 0xC2 65
           {| cmd_byte := 0xC2; inch := 0; reading := 14 |} Hsc).
  vm_compute. reflexivity.
Defined.

(** ** Bit reversal *)



(** The only 16-bit input on which [bit_reverse] returns the bitwise
    reversed 16-bit value its description promises is 0. *)
Theorem bit_reverse_reverses_only_0 (x : Z) :
  0 <= x < 65536 ->
  (bit_reverse x = Returns (reverse_bits_16 x) <-> x = 0).
Proof.
  intros Hx.
  destruct (Z.lt_ge_cases x 4) as [Hlt|Hge].
  - assert (Hcases : x = 0 \/ x = 1 \/ x = 2 \/ x = 3) by lia.
    destruct Hcases as [-> | [-> | [-> | ->]]]; split; intros H;
      try reflexivity; try discriminate; lia.
  - rewrite (bit_reverse_undefined_from_4 x) by lia.
    split; [discriminate|lia].
Qed.

Lemma bit_reverse_reverses_only_0_witness :
  bit_reverse 0 = Returns (reverse_bits_16 0).
Proof.
  assert (Hx : 0 <= 0 < 65536) by lia.
  apply (proj2 (bit_reverse_reverses_only_0 0 Hx)). reflexivity.
Defined.

(** ** Auto-baud handshake *)

Lemma body_transmitted (st : handshake) (e : rx_event) :
  byte_event e ->
  transmitted (auto_baud_body st e)
  = transmitted st ++ repeat CAL_BYTE (calibration_sends e).
Proof.
  unfold byte_event, auto_baud_body, calibration_sends, is_confirm. intros Hb.
  rewrite (u8_small (rx_byte e)) by exact Hb. change CONFIRM with 0x55.
  destruct (rx_byte e =? 0x55); cbn [transmitted];
    rewrite repeat_app, app_assoc; reflexivity.
Qed.

Lemma while_transmitted (rx : list rx_event) :
  Forall byte_event rx ->
  forall st,
    match auto_baud_while rx st with
    | Polling st' =>
        transmitted st' = transmitted st ++ repeat CAL_BYTE (total_sends rx)
    | Returned _ st' pending =>
        exists consumed,
          rx = consumed ++ pending
          /\ transmitted st' = transmitted st ++ repeat CAL_BYTE (total_sends consumed)
    end.
Proof.
  induction 1 as [|e rx He Hrx IH]; intros st; cbn [auto_baud_while].
  - destruct (Z.land (Code_receive st) (Code_confirm st) =? 0).
    + cbn. rewrite app_nil_r. reflexivity.
    + exists []. cbn. rewrite app_nil_r. split; reflexivity.
  - destruct (Z.land (Code_receive st) (Code_confirm st) =? 0).
    + specialize (IH (auto_baud_body st e)).
      destruct (auto_baud_while rx (auto_baud_body st e)) as [ret st' pending|st'].
      * destruct IH as (consumed & -> & Htx). exists (e :: consumed).
        split; [reflexivity|].
        rewrite Htx, body_transmitted by exact He.
        cbn [total_sends fold_right]. fold (total_sends consumed).
        rewrite repeat_app, app_assoc. reflexivity.
      * rewrite IH, body_transmitted by exact He.
        cbn [total_sends fold_right]. fold (total_sends rx).
        rewrite repeat_app, app_assoc. reflexivity.
    + exists []. cbn. rewrite app_nil_r. split; reflexivity.
Qed.

(** Everything [si8900_auto_baud] transmits is the calibration byte, and
    the number of transmissions is fixed by what it has received: one at
    the start, one per unsuccessful poll of the receive flag, one more
    after each confirmation byte and two more after each other byte. *)
Theorem auto_baud_transmits_calibration_bytes (rx : list rx_event) :
  Forall byte_event rx ->
  (forall st,
      si8900_auto_baud rx = Polling st ->
      transmitted st = repeat CAL_BYTE (1 + total_sends rx))
  /\ (forall ret st pending,
        si8900_auto_baud rx = Returned ret st pending ->
        exists consumed,
          rx = consumed ++ pending
          /\ transmitted st = repeat CAL_BYTE (1 + total_sends consumed)).
Proof.
  intros Hrx. unfold si8900_auto_baud.
  pose proof (while_transmitted rx Hrx
                {| Code_receive := 0; Code_confirm := 0; hold_value := 0;
                   transmitted := [CAL_BYTE] |}) as H.
  cbn [transmitted] in H. split.
  - intros st Hrun. rewrite Hrun in H. exact H.
  - intros ret st pending Hrun. rewrite Hrun in H. exact H.
Qed.

Lemma auto_baud_transmits_calibration_bytes_witness :
  exists consumed,
    [ {| idle_polls := 3; rx_byte := 0x00 |}; received 0x55; received 0x55; received 0x01 ]
    = consumed ++ [received 0x01]
    /\ repeat CAL_BYTE 8 = repeat CAL_BYTE (1 + total_sends consumed).
Proof.
  assert (Hrx : Forall byte_event
                  [ {| idle_polls := 3; rx_byte := 0x00 |}; received 0x55; received 0x55;
                    received 0x01 ]).
  { repeat constructor; unfold byte_event; simpl; lia. }
  apply (proj2 (auto_baud_transmits_calibration_bytes _ Hrx) 0
           {| Code_receive := 1; Code_confirm := 1; hold_value := 0x55;
              transmitted := repeat CAL_BYTE 8 |}
           [received 0x01]).
  reflexivity.
Defined.



(** ** Sending a command *)

Lemma send_cmd_do_no_echo (cmd_byte : Z) (rx : list Z) :
  Forall (fun b => 0 <= b < 256) rx ->
  ~ In cmd_byte rx ->
  forall sent,
    send_cmd_do cmd_byte rx sent
    = Awaiting_echo (sent ++ repeat cmd_byte (S (length rx))).
Proof.
  induction 1 as [|b rx Hb Hrx IH]; intros Hnot sent.
  - reflexivity.
  - cbn [send_cmd_do]. rewrite (u8_small b) by exact Hb.
    assert (Hne : (b =? cmd_byte) = false).
    { apply Z.eqb_neq. intros ->. apply Hnot. left. reflexivity. }
    rewrite Hne. cbn [negb].
    rewrite IH by (intros Hin; apply Hnot; right; exact Hin).
    rewrite <- app_assoc. reflexivity.
Qed.

Lemma send_cmd_do_first_echo (cmd_byte : Z) (pending before : list Z) :
  Forall (fun b => 0 <= b < 256) before ->
  0 <= cmd_byte < 256 ->
  ~ In cmd_byte before ->
  forall sent,
    send_cmd_do cmd_byte (before ++ cmd_byte :: pending) sent
    = Sent (sent ++ repeat cmd_byte (S (length before))) pending.
Proof.
  induction 1 as [|b before Hb Hbefore IH]; intros Hcmd Hnot sent.
  - cbn [app send_cmd_do]. rewrite (u8_small cmd_byte) by exact Hcmd.
    rewrite Z.eqb_refl. reflexivity.
  - cbn [app send_cmd_do]. rewrite (u8_small b) by exact Hb.
    assert (Hne : (b =? cmd_byte) = false).
    { apply Z.eqb_neq. intros ->. apply Hnot. left. reflexivity. }
    rewrite Hne. cbn [negb].
    rewrite IH by (try exact Hcmd; intros Hin; apply Hnot; right; exact Hin).
    rewrite <- app_assoc. reflexivity.
Qed.

(** The first occurrence of a value in a list that contains it. *)
Lemma first_occurrence (x : Z) (l : list Z) :
  In x l -> exists before after, l = before ++ x :: after /\ ~ In x before.
Proof.
  induction l as [|y l IH]; intros Hin; [contradiction|].
  destruct (Z.eq_dec y x) as [->|Hne].
  - exists [], l. split; [reflexivity|]. intros H. exact H.
  - destruct Hin as [Heq|Hin]; [contradiction|].
    destruct (IH Hin) as (before & after & -> & Hnot).
    exists (y :: before), after. split; [reflexivity|].
    intros [H|H]; [contradiction|]. exact (Hnot H).
Qed.

Lemma send_cmd_first_echo (cmd_byte : Z) (before pending : list Z) :
  0 <= cmd_byte < 256 ->
  Forall (fun b => 0 <= b < 256) (before ++ cmd_byte :: pending) ->
  ~ In cmd_byte before ->
  si8900_send_cmd cmd_byte (before ++ cmd_byte :: pending)
  = Sent (repeat cmd_byte (S (length before))) pending.
Proof.
  intros Hcmd Hrx Hnot. unfold si8900_send_cmd. rewrite (u8_small cmd_byte) by exact Hcmd.
  apply Forall_app in Hrx. destruct Hrx as [Hb _].
  rewrite (send_cmd_do_first_echo cmd_byte pending before Hb Hcmd Hnot []). reflexivity.
Qed.

Lemma send_cmd_no_echo (cmd_byte : Z) (rx : list Z) :
  0 <= cmd_byte < 256 ->
  Forall (fun b => 0 <= b < 256) rx ->
  ~ In cmd_byte rx ->
  si8900_send_cmd cmd_byte rx = Awaiting_echo (repeat cmd_byte (S (length rx))).
Proof.
  intros Hcmd Hrx Hnot. unfold si8900_send_cmd. rewrite (u8_small cmd_byte) by exact Hcmd.
  rewrite (send_cmd_do_no_echo cmd_byte rx Hrx Hnot []). reflexivity.
Qed.

Lemma send_cmd_sent_iff (cmd_byte : Z) (rx : list Z) :
  0 <= cmd_byte < 256 ->
  Forall (fun b => 0 <= b < 256) rx ->
  has_sent (si8900_send_cmd cmd_byte rx) = true <-> In cmd_byte rx.
Proof.
  intros Hcmd Hrx. split.
  - intros Hsent. destruct (in_dec Z.eq_dec cmd_byte rx) as [Hin|Hnot]; [exact Hin|].
    rewrite (send_cmd_no_echo cmd_byte rx Hcmd Hrx Hnot) in Hsent. discriminate.
  - intros Hin. destruct (first_occurrence cmd_byte rx Hin) as (before & after & -> & Hnot).
    rewrite (send_cmd_first_echo cmd_byte before after Hcmd Hrx Hnot). reflexivity.
Qed.

(** [si8900_send_cmd] returns exactly when the command byte has come
    back: it writes the command once at the start and once more after
    every received byte that is not the command, returns at the first
    received byte equal to the command and leaves the bytes after it
    unread.  As long as no received byte equals the command it keeps
    resending and waiting. *)
Theorem send_cmd_returns_at_first_echo (cmd_byte : Z) (rx : list Z) :
  0 <= cmd_byte < 256 ->
  Forall (fun b => 0 <= b < 256) rx ->
  (has_sent (si8900_send_cmd cmd_byte rx) = true <-> In cmd_byte rx)
  /\ (forall before pending,
        rx = before ++ cmd_byte :: pending -> ~ In cmd_byte before ->
        si8900_send_cmd cmd_byte rx
        = Sent (repeat cmd_byte (S (length before))) pending)
  /\ (~ In cmd_byte rx ->
      si8900_send_cmd cmd_byte rx = Awaiting_echo (repeat cmd_byte (S (length rx)))).
Proof.
  intros Hcmd Hrx. split; [|split].
  - apply send_cmd_sent_iff; assumption.
  - intros before pending Heq Hnot. subst rx. apply send_cmd_first_echo; assumption.
  - apply send_cmd_no_echo; assumption.
Qed.

Lemma send_cmd_returns_at_first_echo_witness :
  si8900_send_cmd GP_SINGLE_READ_0 [0x00; 0x55; GP_SINGLE_READ_0; 0x90; 0x00]
  = Sent [GP_SINGLE_READ_0; GP_SINGLE_READ_0; GP_SINGLE_READ_0] [0x90; 0x00].
Proof.
  assert (Hcmd : 0 <= GP_SINGLE_READ_0 < 256) by (vm_compute; split; [discriminate|reflexivity]).
  assert (Hrx : Forall (fun b => 0 <= b < 256) [0x00; 0x55; GP_SINGLE_READ_0; 0x90; 0x00]).
  { repeat constructor; vm_compute; discriminate. }
  apply (proj1 (proj2 (send_cmd_returns_at_first_echo _ _ Hcmd Hrx)) [0x00; 0x55] [0x90; 0x00]).
  - reflexivity.
  - intros [H|[H|H]]; [discriminate H|discriminate H|exact H].
Defined.

(** [si8900_send_cmd] has no retry bound: on an endless stream of
    received bytes it returns if and only if some received byte equals
    the command byte. *)
Theorem send_cmd_returns_iff_echoed (cmd_byte : Z) (s : nat -> Z) :
  0 <= cmd_byte < 256 ->
  (forall i, 0 <= s i < 256) ->
  ((exists n, has_sent (si8900_send_cmd cmd_byte (first_bytes s n)) = true)
   <-> exists i, s i = cmd_byte)
  /\ ((forall i, s i <> cmd_byte) ->
      forall n, si8900_send_cmd cmd_byte (first_bytes s n)
                = Awaiting_echo (repeat cmd_byte (S n))).
Proof.
  intros Hcmd Hs.
  assert (Hbytes : forall n, Forall (fun b => 0 <= b < 256) (first_bytes s n)).
  { intros n. apply Forall_forall. intros b Hb. unfold first_bytes in Hb.
    apply in_map_iff in Hb. destruct Hb as (i & <- & _). apply Hs. }
  assert (Hin : forall n, In cmd_byte (first_bytes s n)
                          <-> exists i, (i < n)%nat /\ s i = cmd_byte).
  { intros n. unfold first_bytes. rewrite in_map_iff. split.
    - intros (i & He & Hi). apply in_seq in Hi. exists i. split; [lia|exact He].
    - intros (i & Hi & He). exists i. split; [exact He|]. apply in_seq. lia. }
  split.
  - split.
    + intros (n & Hsent).
      apply (send_cmd_sent_iff cmd_byte _ Hcmd (Hbytes n)) in Hsent.
      apply Hin in Hsent. destruct Hsent as (i & _ & He). exists i. exact He.
    + intros (i & He). exists (S i).
      apply (send_cmd_sent_iff cmd_byte _ Hcmd (Hbytes (S i))).
      apply Hin. exists i. split; [lia|exact He].
  - intros Hnone n.
    assert (Hnot : ~ In cmd_byte (first_bytes s n)).
    { intros H. apply Hin in H. destruct H as (i & _ & He). exact (Hnone i He). }
    rewrite (send_cmd_no_echo cmd_byte _ Hcmd (Hbytes n) Hnot).
    unfold first_bytes. rewrite length_map, length_seq. reflexivity.
Qed.

Lemma send_cmd_returns_iff_echoed_witness :
  (exists n, has_sent (si8900_send_cmd 0xC2 (first_bytes (fun i => Z.of_nat i mod 256) n)) = true)
  /\ forall n, si8900_send_cmd 0xC2 (first_bytes (fun _ => 0x55) n)
               = Awaiting_echo (repeat 0xC2 (S n)).
Proof.
  assert (Hcmd : 0 <= 0xC2 < 256) by lia.
  assert (Hcount : forall i : nat, 0 <= Z.of_nat i mod 256 < 256).
  { intros i. apply Z.mod_pos_bound. lia. }
  assert (H55 : forall i : nat, 0 <= (fun _ : nat => 0x55) i < 256).
  { intros i. simpl. lia. }
  split.
  - apply (proj2 (proj1 (send_cmd_returns_iff_echoed 0xC2 _ Hcmd Hcount))).
    exists 194%nat. reflexivity.
  - apply (proj2 (send_cmd_returns_iff_echoed 0xC2 _ Hcmd H55)).
    intros i H. discriminate H.
Defined.

